(** * Request construction, header validation and lifecycle of the HTTP client

    A shallow embedding of the [Request] class (the request source file) and
    of the helpers of [lib/core/util.js] that it relies on, followed by the
    properties of the specification, each proved or refuted on the embedding.

    Conventions of the embedding.
    - A JavaScript string is a [string]: a sequence of code units in the range
      0..255.  Code units above 0xFF, which both grammar predicates reject,
      are outside the model.
    - A JavaScript number is [jsnum]; finite numbers are exact rationals.
      The number that [parseInt] returns is an [intnum]: NaN, an infinity or
      the integer value of a double, rounded to nearest, ties to even, above
      2^53 ([to_double]).  [parseRangeHeader] alone keeps the integers it
      reads exact.
    - A method of the class is a computation in the monad [M]: it reads and
      writes the fields of the request, emits the calls it makes to the
      outside world (handler, abort capability, diagnostics channels, body
      stream) and either returns or throws.  Fields written before a [throw]
      stay written, as in JavaScript. *)

From Stdlib Require Import ZArith QArith List String Ascii Bool Lia.
Import ListNotations.
Open Scope string_scope.
Open Scope Z_scope.

(* ------------------------------------------------------------------------- *)
(** ** JavaScript primitives *)

Module JS.

Inductive jsnum :=
| NaN
| Infinity (negative : bool)
| Finite (q : Q).

Inductive jsval :=
| JUndefined
| JNull
| JBool (b : bool)
| JNum (n : jsnum)
| JStr (s : string)
| JObject.                     (* any object or function *)

(** ToBoolean *)
Definition truthy (v : jsval) : bool :=
  match v with
  | JUndefined | JNull => false
  | JBool b => b
  | JNum NaN => false
  | JNum (Infinity _) => true
  | JNum (Finite q) => negb (Qeq_bool q 0)
  | JStr s => negb (String.eqb s "")
  | JObject => true
  end.

(** [v == null] *)
Definition nullish (v : jsval) : bool :=
  match v with JUndefined | JNull => true | _ => false end.

(** [a ?? b] *)
Definition coalesce (a b : jsval) : jsval := if nullish a then b else a.

Definition is_string (v : jsval) : bool :=
  match v with JStr _ => true | _ => false end.

Definition is_boolean (v : jsval) : bool :=
  match v with JBool _ => true | _ => false end.

(** [Number.isFinite(v)]: false for everything that is not a finite number *)
Definition Number_isFinite (v : jsval) : bool :=
  match v with JNum (Finite _) => true | _ => false end.

(** [v < 0] for a number *)
Definition num_negative (v : jsval) : bool :=
  match v with
  | JNum (Finite q) => negb (Qle_bool 0 q)
  | JNum (Infinity neg) => neg
  | _ => false
  end.

Definition code (c : ascii) : Z := Z.of_N (N_of_ascii c).

Definition in_range (lo hi n : Z) : bool := (lo <=? n) && (n <=? hi).

(** [String.prototype.toLowerCase] on code units 0..255: A-Z and the
    upper-case letters of Latin-1 (0xC0-0xDE without the multiplication
    sign 0xD7) move up by 0x20. *)
Definition lower_char (c : ascii) : ascii :=
  let n := code c in
  if in_range 65 90 n || (in_range 192 222 n && negb (n =? 215))
  then ascii_of_N (Z.to_N (n + 32))
  else c.

Fixpoint toLowerCase (s : string) : string :=
  match s with
  | EmptyString => EmptyString
  | String c r => String (lower_char c) (toLowerCase r)
  end.

(** [s.startsWith(p)] *)
Definition startsWith (s p : string) : bool := String.prefix p s.

(** [s.includes(c)] for a one-character needle *)
Fixpoint includes_char (s : string) (c : ascii) : bool :=
  match s with
  | EmptyString => false
  | String d r => Ascii.eqb d c || includes_char r c
  end.

Fixpoint every (p : ascii -> bool) (s : string) : bool :=
  match s with
  | EmptyString => true
  | String c r => p c && every p r
  end.

Definition is_digit (c : ascii) : bool := in_range 48 57 (code c).

Definition digit_val (c : ascii) : Z := code c - 48.

(** the longest prefix of decimal digits, and what follows it *)
Fixpoint span_digits (s : string) : string * string :=
  match s with
  | String c r =>
      if is_digit c
      then let (d, rest) := span_digits r in (String c d, rest)
      else (EmptyString, s)
  | EmptyString => (EmptyString, EmptyString)
  end.

(** value of a string of decimal digits, most significant first *)
Fixpoint digits_value (acc : Z) (s : string) : Z :=
  match s with
  | EmptyString => acc
  | String c r => digits_value (10 * acc + digit_val c) r
  end.

(** StrWhiteSpaceChar, restricted to code units 0..255: TAB, LF, VT, FF,
    CR, SP and NBSP *)
Definition is_whitespace (c : ascii) : bool :=
  let n := code c in in_range 9 13 n || (n =? 32) || (n =? 160).

Fixpoint trim_start (s : string) : string :=
  match s with
  | String c r => if is_whitespace c then trim_start r else s
  | EmptyString => EmptyString
  end.

(** The integer that [parseInt(s, 10)] reads, before it is made a Number:
    skip leading white space, read an optional sign, then the longest run of
    digits; [None] is NaN.  Radix 10 strips no "0x" prefix. *)
Definition parseInt10 (s : string) : option Z :=
  let t := trim_start s in
  let '(neg, body) :=
    match t with
    | String "-" r => (true, r)
    | String "+" r => (false, r)
    | _ => (false, t)
    end in
  let (ds, _) := span_digits body in
  match ds with
  | EmptyString => None
  | _ => Some (if neg then - digits_value 0 ds else digits_value 0 ds)
  end.

End JS.
Import JS.

(* ------------------------------------------------------------------------- *)
(** ** Errors *)

(** The error classes the code throws.  [Foreign] stands for an error value
    that comes from outside the class: thrown by a handler method, raised by
    the body stream, or passed to [onError] by the transport.  Errors are
    objects, hence truthy. *)
Inductive error :=
| InvalidArgumentError (msg : string)
| NotSupportedError (msg : string)
| TypeError (msg : string)
| PlainError (msg : string)
| AssertionError
| Foreign (id : nat).

(* ------------------------------------------------------------------------- *)
(** ** lib/core/util.js *)

Module Util.

(** [isTokenCharCode] *)
Definition isTokenCharCode (c : Z) : bool :=
  negb ((c =? 0x22) || ((0x28 <=? c) && (c <=? 0x29)) ||
        ((0x2c <=? c) && (c <=? 0x2f)) || ((0x3a <=? c) && (c <=? 0x3e)) ||
        ((0x40 <=? c) && (c <=? 0x5d)) || ((0x7b <=? c) && (c <=? 0x7d)) ||
        ((c <? 0x21) || (c >? 0x7e))).

(** [isValidHTTPToken] *)
Definition isValidHTTPToken (str : string) : bool :=
  (0 <? Z.of_nat (String.length str)) &&
  every (fun c => isTokenCharCode (code c)) str.

(** the character class of [isValidHeaderValue]: TAB, 0x20-0x7e, 0x80-0xff *)
Definition header_value_char (c : ascii) : bool :=
  let n := code c in (n =? 9) || in_range 0x20 0x7e n || in_range 0x80 0xff n.

(** [isValidHeaderValue]: no character outside the class *)
Definition isValidHeaderValue (str : string) : bool :=
  every header_value_char str.

(** [normalizedMethodRecords]: the own keys of the object. *)
Definition normalizedMethodRecords : list string :=
  ["DELETE"; "GET"; "HEAD"; "OPTIONS"; "POST"; "PUT"; "PATCH"; "patch"].

(** The object is written as a literal, so a property read also finds the
    members of [Object.prototype], all of them truthy. *)
Definition Object_prototype_members : list string :=
  ["constructor"; "__defineGetter__"; "__defineSetter__"; "hasOwnProperty";
   "__lookupGetter__"; "__lookupSetter__"; "isPrototypeOf";
   "propertyIsEnumerable"; "toString"; "valueOf"; "__proto__"; "toLocaleString"].

(** [normalizedMethodRecords[m]] is truthy *)
Definition is_normalized_method (m : string) : bool :=
  existsb (String.eqb m) (normalizedMethodRecords ++ Object_prototype_members)%list.

(** *** parseRangeHeader *)


(** a non-empty string is truthy *)
Definition str_truthy (s : string) : bool := negb (String.eqb s "").

(** [s] without its prefix [p], when it starts with [p] *)
Fixpoint strip_prefix (p s : string) : option string :=
  match p, s with
  | EmptyString, _ => Some s
  | String a p', String b s' => if Ascii.eqb a b then strip_prefix p' s' else None
  | String _ _, EmptyString => None
  end.



(** *** serializePathWithQuery *)

(** The query argument: what [typeof] and [querystring.stringify] see. *)
Inductive query :=
| QUndefined
| QNull
| QPrimitive (is_truthy : bool)      (* a number, string or boolean *)
| QObject (stringified : string).    (* an object, with its [stringify] image *)

Definition query_truthy (q : query) : bool :=
  match q with
  | QUndefined | QNull => false
  | QPrimitive b => b
  | QObject _ => true
  end.

(** [typeof q === 'object'] *)
Definition query_typeof_object (q : query) : bool :=
  match q with QNull | QObject _ => true | _ => false end.

(** [stringify(q)]; for [null] node's querystring gives the empty string *)
Definition stringify (q : query) : string :=
  match q with QObject s => s | _ => "" end.

Definition dquote : string := String (ascii_of_nat 34) EmptyString.

Definition serializePathWithQuery (url : string) (queryParams : query)
  : string + error :=
  if negb (query_typeof_object queryParams)
  then inr (InvalidArgumentError "Query parameters must be an object.")
  else if includes_char url "?" || includes_char url "#"
  then inr (PlainError ("Query params cannot be passed when URL already contains "
                        ++ dquote ++ "?" ++ dquote ++ "."))
  else
    let stringified := stringify queryParams in
    inl (if str_truthy stringified then url ++ "?" ++ stringified else url).

End Util.
Import Util.

(* ------------------------------------------------------------------------- *)
(** ** Values that cross the boundary of the class *)

(** One header value, or one element of an array of header values.  [SOther]
    is any value that is neither a string nor [null] nor [undefined] (a number,
    a boolean, an object), given by its string conversion. *)
Inductive scalar :=
| SUndefined
| SNull
| SStr (s : string)
| SOther (shown : string).

Inductive hvalue :=
| HScalar (v : scalar)
| HArray (vs : list scalar).

(** A header value after [addHeader] has normalised it. *)
Inductive nvalue :=
| NStr (s : string)
| NArr (l : list string).

(** The [headers] option.  Header names are strings.  [HdrArray pairs extra]
    is the array [k1, v1, k2, v2, ...] followed by [extra] when its length is
    odd; [HdrObject] lists [Object.entries] in order; [HdrOther] is any other
    value that is neither [undefined] nor [null]. *)
Inductive headersArg :=
| HdrAbsent
| HdrArray (pairs : list (string * hvalue)) (extra : option hvalue)
| HdrObject (entries : list (string * hvalue))
| HdrOther.

(** The [body] option, by the first test of [processBody] that it passes. *)
Inductive bodyArg :=
| BodyFalsy                         (* undefined, null, false, 0 *)
| BodyStream (autoDestroy : bool)   (* isStream; _readableState.autoDestroy *)
| BodyString (s : string)           (* a string *)
| BodyBytes (data : string)         (* a Buffer or an ArrayBuffer view, by the
                                       bytes that Buffer.from makes of it *)
| BodyLazy                          (* form-data-like, iterable or blob-like *)
| BodyInvalid.                      (* a truthy value of no accepted kind *)

(** The [body] field of a request. *)
Inductive bodyValue :=
| BNull
| BStreamRef (autoDestroy : bool)
| BBuffer (data : string)
| BLazyRef.

(** The result of [parseInt]: NaN, an infinity, or a finite double, which has
    an integer value. *)
Inductive intnum :=
| INaN
| IInf (negative : bool)
| IInt (z : Z).

(** The double nearest to the integer [z], by its value; [None] when the
    magnitude overflows to Infinity.  Below 2^53 every integer is a double;
    from there on a double is a multiple of [ulp], the power of two that
    leaves 53 significant bits, and rounding goes to the nearest multiple,
    to the even one from half-way. *)
Definition to_double (z : Z) : option Z :=
  let a := Z.abs z in
  if a <? 2 ^ 53 then Some z
  else
    let ulp := 2 ^ (Z.log2 a - 52) in
    let q := a / ulp in
    let rem := a mod ulp in
    let q' := if (ulp <? 2 * rem) || ((2 * rem =? ulp) && Z.odd q)
              then q + 1 else q in
    let r := q' * ulp in
    if 2 ^ 1024 <=? r then None else Some (Z.sgn z * r).

(** The Number of an integer. *)
Definition number_of (z : Z) : intnum :=
  match to_double z with
  | Some d => IInt d
  | None => IInf (z <? 0)
  end.

(** [parseInt(s, 10)], the Number it returns *)
Definition parseInt10_number (s : string) : intnum :=
  match parseInt10 s with
  | Some z => number_of z
  | None => INaN
  end.

(** [Number.isFinite(n)] *)
Definition isFinite (n : intnum) : bool :=
  match n with
  | IInt _ => true
  | INaN | IInf _ => false
  end.

(** [n * 1000] on Numbers: the double nearest to the exact product *)
Definition times_1000 (n : intnum) : intnum :=
  match n with
  | IInt z => number_of (z * 1000)
  | other => other
  end.

(** [Buffer.from(s)] for a string [s], and equally
    [Buffer.from(s).toString('latin1')]: the UTF-8 bytes of [s], each given
    as one character.  A code unit below 0x80 is one byte, one from 0x80 to
    0xFF is two. *)
Fixpoint utf8_as_latin1 (s : string) : string :=
  match s with
  | EmptyString => EmptyString
  | String c r =>
      let n := code c in
      if n <? 128 then String c (utf8_as_latin1 r)
      else String (ascii_of_N (Z.to_N (Z.lor 192 (Z.shiftr n 6))))
             (String (ascii_of_N (Z.to_N (Z.lor 128 (Z.land n 63))))
                (utf8_as_latin1 r))
  end.

Record options := {
  o_path : jsval;
  o_method : jsval;
  o_upgrade : jsval;
  o_headersTimeout : jsval;
  o_bodyTimeout : jsval;
  o_reset : jsval;
  o_expectContinue : jsval;
  o_throwOnError : jsval;
  o_body : bodyArg;
  o_query : query;
  o_idempotent : jsval;
  o_blocking : jsval;
  o_headers : headersArg
}.

(** *** The handler *)

Inductive hmethod :=
| OnConnect | OnBodySent | OnRequestSent | OnResponseStarted
| OnHeaders | OnData | OnUpgrade | OnComplete | OnError.

(** A call of a handler method with its arguments.  Abort capabilities,
    resume callbacks and sockets are opaque and named by a number. *)
Inductive hcall :=
| CallConnect (abort : nat)
| CallBodySent (chunk : string)
| CallRequestSent
| CallResponseStarted
| CallHeaders (statusCode : Z) (rawHeaders : list string) (resume : nat) (statusText : string)
| CallData (chunk : string)
| CallUpgrade (statusCode : Z) (rawHeaders : list string) (socket : nat)
| CallComplete (trailers : list string)
| CallError (e : error).

Definition method_of (c : hcall) : hmethod :=
  match c with
  | CallConnect _ => OnConnect
  | CallBodySent _ => OnBodySent
  | CallRequestSent => OnRequestSent
  | CallResponseStarted => OnResponseStarted
  | CallHeaders _ _ _ _ => OnHeaders
  | CallData _ => OnData
  | CallUpgrade _ _ _ => OnUpgrade
  | CallComplete _ => OnComplete
  | CallError _ => OnError
  end.

Inductive outcome :=
| Returns (v : jsval)
| Throws (e : error).

(** The handler object: which methods it has, and what a call does. *)
Record Handler := {
  has_method : hmethod -> bool;
  run : hcall -> outcome
}.

(** *** What a method does to the outside world *)

Inductive channel := ChCreate | ChBodySent | ChHeaders | ChTrailers | ChError.

Inductive event :=
| Published (c : channel)              (* channels.c.publish(...) *)
| HandlerCalled (c : hcall)            (* this.#handler[method](...args) *)
| AbortCalled (abort : nat) (e : error)  (* the abort capability, called with e *)
| BodyOn (name : string)               (* body.on(name, listener) *)
| BodyOff (name : string).             (* body.off(name, listener) *)

(** *** What the class uses and this development does not have

    [headerNameLowerCasedRecord] (lib/core/constants.js) is a table from
    header names to lower-cased names, given by its entries;
    [invalidPathRegex] is the pattern that [validateInputs] tests the path
    against; [channels] are the diagnostics channels, of which the class
    reads [hasSubscribers].  The development is parametric in the three. *)
Record Env := {
  headerNameLowerCasedRecord : list (string * string);
  invalidPathRegex_test : string -> bool;
  hasSubscribers : channel -> bool
}.

(* ------------------------------------------------------------------------- *)
(** ** The request object *)

Record Request := mkRequest {
  headersTimeout : jsval;
  bodyTimeout : jsval;
  method : jsval;
  body : bodyValue;
  completed : bool;
  aborted : bool;
  upgrade : jsval;
  path : jsval;
  origin : jsval;
  idempotent : jsval;
  blocking : jsval;
  reset : jsval;
  host : option string;
  contentLength : option intnum;
  contentType : option nvalue;
  endHandler : bool;
  errorHandler : bool;
  priv_headers : list (string * nvalue);
  priv_handler : option Handler;
  priv_abort : option nat;
  priv_error : option error
}.

Definition set_headersTimeout (v : jsval) (r : Request) : Request :=
  mkRequest v (bodyTimeout r) (method r) (body r) (completed r) (aborted r) (upgrade r) (path r) (origin r) (idempotent r) (blocking r) (reset r) (host r) (contentLength r) (contentType r) (endHandler r) (errorHandler r) (priv_headers r) (priv_handler r) (priv_abort r) (priv_error r).

Definition set_bodyTimeout (v : jsval) (r : Request) : Request :=
  mkRequest (headersTimeout r) v (method r) (body r) (completed r) (aborted r) (upgrade r) (path r) (origin r) (idempotent r) (blocking r) (reset r) (host r) (contentLength r) (contentType r) (endHandler r) (errorHandler r) (priv_headers r) (priv_handler r) (priv_abort r) (priv_error r).

Definition set_method (v : jsval) (r : Request) : Request :=
  mkRequest (headersTimeout r) (bodyTimeout r) v (body r) (completed r) (aborted r) (upgrade r) (path r) (origin r) (idempotent r) (blocking r) (reset r) (host r) (contentLength r) (contentType r) (endHandler r) (errorHandler r) (priv_headers r) (priv_handler r) (priv_abort r) (priv_error r).

Definition set_body (v : bodyValue) (r : Request) : Request :=
  mkRequest (headersTimeout r) (bodyTimeout r) (method r) v (completed r) (aborted r) (upgrade r) (path r) (origin r) (idempotent r) (blocking r) (reset r) (host r) (contentLength r) (contentType r) (endHandler r) (errorHandler r) (priv_headers r) (priv_handler r) (priv_abort r) (priv_error r).

Definition set_completed (v : bool) (r : Request) : Request :=
  mkRequest (headersTimeout r) (bodyTimeout r) (method r) (body r) v (aborted r) (upgrade r) (path r) (origin r) (idempotent r) (blocking r) (reset r) (host r) (contentLength r) (contentType r) (endHandler r) (errorHandler r) (priv_headers r) (priv_handler r) (priv_abort r) (priv_error r).

Definition set_aborted (v : bool) (r : Request) : Request :=
  mkRequest (headersTimeout r) (bodyTimeout r) (method r) (body r) (completed r) v (upgrade r) (path r) (origin r) (idempotent r) (blocking r) (reset r) (host r) (contentLength r) (contentType r) (endHandler r) (errorHandler r) (priv_headers r) (priv_handler r) (priv_abort r) (priv_error r).

Definition set_upgrade (v : jsval) (r : Request) : Request :=
  mkRequest (headersTimeout r) (bodyTimeout r) (method r) (body r) (completed r) (aborted r) v (path r) (origin r) (idempotent r) (blocking r) (reset r) (host r) (contentLength r) (contentType r) (endHandler r) (errorHandler r) (priv_headers r) (priv_handler r) (priv_abort r) (priv_error r).

Definition set_path (v : jsval) (r : Request) : Request :=
  mkRequest (headersTimeout r) (bodyTimeout r) (method r) (body r) (completed r) (aborted r) (upgrade r) v (origin r) (idempotent r) (blocking r) (reset r) (host r) (contentLength r) (contentType r) (endHandler r) (errorHandler r) (priv_headers r) (priv_handler r) (priv_abort r) (priv_error r).

Definition set_origin (v : jsval) (r : Request) : Request :=
  mkRequest (headersTimeout r) (bodyTimeout r) (method r) (body r) (completed r) (aborted r) (upgrade r) (path r) v (idempotent r) (blocking r) (reset r) (host r) (contentLength r) (contentType r) (endHandler r) (errorHandler r) (priv_headers r) (priv_handler r) (priv_abort r) (priv_error r).

Definition set_idempotent (v : jsval) (r : Request) : Request :=
  mkRequest (headersTimeout r) (bodyTimeout r) (method r) (body r) (completed r) (aborted r) (upgrade r) (path r) (origin r) v (blocking r) (reset r) (host r) (contentLength r) (contentType r) (endHandler r) (errorHandler r) (priv_headers r) (priv_handler r) (priv_abort r) (priv_error r).

Definition set_blocking (v : jsval) (r : Request) : Request :=
  mkRequest (headersTimeout r) (bodyTimeout r) (method r) (body r) (completed r) (aborted r) (upgrade r) (path r) (origin r) (idempotent r) v (reset r) (host r) (contentLength r) (contentType r) (endHandler r) (errorHandler r) (priv_headers r) (priv_handler r) (priv_abort r) (priv_error r).

Definition set_reset (v : jsval) (r : Request) : Request :=
  mkRequest (headersTimeout r) (bodyTimeout r) (method r) (body r) (completed r) (aborted r) (upgrade r) (path r) (origin r) (idempotent r) (blocking r) v (host r) (contentLength r) (contentType r) (endHandler r) (errorHandler r) (priv_headers r) (priv_handler r) (priv_abort r) (priv_error r).

Definition set_host (v : option string) (r : Request) : Request :=
  mkRequest (headersTimeout r) (bodyTimeout r) (method r) (body r) (completed r) (aborted r) (upgrade r) (path r) (origin r) (idempotent r) (blocking r) (reset r) v (contentLength r) (contentType r) (endHandler r) (errorHandler r) (priv_headers r) (priv_handler r) (priv_abort r) (priv_error r).

Definition set_contentLength (v : option intnum) (r : Request) : Request :=
  mkRequest (headersTimeout r) (bodyTimeout r) (method r) (body r) (completed r) (aborted r) (upgrade r) (path r) (origin r) (idempotent r) (blocking r) (reset r) (host r) v (contentType r) (endHandler r) (errorHandler r) (priv_headers r) (priv_handler r) (priv_abort r) (priv_error r).

Definition set_contentType (v : option nvalue) (r : Request) : Request :=
  mkRequest (headersTimeout r) (bodyTimeout r) (method r) (body r) (completed r) (aborted r) (upgrade r) (path r) (origin r) (idempotent r) (blocking r) (reset r) (host r) (contentLength r) v (endHandler r) (errorHandler r) (priv_headers r) (priv_handler r) (priv_abort r) (priv_error r).

Definition set_endHandler (v : bool) (r : Request) : Request :=
  mkRequest (headersTimeout r) (bodyTimeout r) (method r) (body r) (completed r) (aborted r) (upgrade r) (path r) (origin r) (idempotent r) (blocking r) (reset r) (host r) (contentLength r) (contentType r) v (errorHandler r) (priv_headers r) (priv_handler r) (priv_abort r) (priv_error r).

Definition set_errorHandler (v : bool) (r : Request) : Request :=
  mkRequest (headersTimeout r) (bodyTimeout r) (method r) (body r) (completed r) (aborted r) (upgrade r) (path r) (origin r) (idempotent r) (blocking r) (reset r) (host r) (contentLength r) (contentType r) (endHandler r) v (priv_headers r) (priv_handler r) (priv_abort r) (priv_error r).

Definition set_priv_headers (v : list (string * nvalue)) (r : Request) : Request :=
  mkRequest (headersTimeout r) (bodyTimeout r) (method r) (body r) (completed r) (aborted r) (upgrade r) (path r) (origin r) (idempotent r) (blocking r) (reset r) (host r) (contentLength r) (contentType r) (endHandler r) (errorHandler r) v (priv_handler r) (priv_abort r) (priv_error r).

Definition set_priv_handler (v : option Handler) (r : Request) : Request :=
  mkRequest (headersTimeout r) (bodyTimeout r) (method r) (body r) (completed r) (aborted r) (upgrade r) (path r) (origin r) (idempotent r) (blocking r) (reset r) (host r) (contentLength r) (contentType r) (endHandler r) (errorHandler r) (priv_headers r) v (priv_abort r) (priv_error r).

Definition set_priv_abort (v : option nat) (r : Request) : Request :=
  mkRequest (headersTimeout r) (bodyTimeout r) (method r) (body r) (completed r) (aborted r) (upgrade r) (path r) (origin r) (idempotent r) (blocking r) (reset r) (host r) (contentLength r) (contentType r) (endHandler r) (errorHandler r) (priv_headers r) (priv_handler r) v (priv_error r).

Definition set_priv_error (v : option error) (r : Request) : Request :=
  mkRequest (headersTimeout r) (bodyTimeout r) (method r) (body r) (completed r) (aborted r) (upgrade r) (path r) (origin r) (idempotent r) (blocking r) (reset r) (host r) (contentLength r) (contentType r) (endHandler r) (errorHandler r) (priv_headers r) (priv_handler r) (priv_abort r) v.

(* ------------------------------------------------------------------------- *)
(** ** The monad of methods *)

Inductive result (A : Type) :=
| Ok (a : A)
| Throw (e : error).
Arguments Ok {A} a.
Arguments Throw {A} e.

(** A method: from the request before the call to the request after it, the
    calls made to the outside, and the value returned or the error thrown. *)
Definition M (A : Type) : Type := Request -> Request * list event * result A.

Definition ret {A} (a : A) : M A := fun r => (r, [], Ok a).

Definition throw {A} (e : error) : M A := fun r => (r, [], Throw e).

Definition bind {A B} (m : M A) (k : A -> M B) : M B :=
  fun r =>
    match m r with
    | (r1, ev1, Ok a) =>
        match k a r1 with
        | (r2, ev2, res) => (r2, (ev1 ++ ev2)%list, res)
        end
    | (r1, ev1, Throw e) => (r1, ev1, Throw e)
    end.

Notation "x <- m ;; k" := (bind m (fun x => k))
  (at level 61, m at next level, right associativity).
Notation "m ;; k" := (bind m (fun _ => k))
  (at level 61, right associativity).

Definition get : M Request := fun r => (r, [], Ok r).

Definition modify (f : Request -> Request) : M unit := fun r => (f r, [], Ok tt).

Definition emit (e : event) : M unit := fun r => (r, [e], Ok tt).

Definition when (b : bool) (m : M unit) : M unit := if b then m else ret tt.

(** [assert(b)] of node:assert *)
Definition assert (b : bool) : M unit := if b then ret tt else throw AssertionError.

(** The state, the events and the result of a run. *)
Definition state_of {A} (x : Request * list event * result A) : Request := fst (fst x).
Definition events_of {A} (x : Request * list event * result A) : list event := snd (fst x).
Definition result_of {A} (x : Request * list event * result A) : result A := snd x.

(** The handler calls among some events. *)
Fixpoint handler_calls (evs : list event) : list hcall :=
  match evs with
  | [] => []
  | HandlerCalled c :: rest => c :: handler_calls rest
  | _ :: rest => handler_calls rest
  end.

(** The calls of an abort capability among some events. *)
Fixpoint abort_calls (evs : list event) : list (nat * error) :=
  match evs with
  | [] => []
  | AbortCalled a e :: rest => (a, e) :: abort_calls rest
  | _ :: rest => abort_calls rest
  end.

(** The members of a [Request] object: the methods that the class body
    declares and the public fields that its methods assign.  The private
    fields [#headers], [#handler], [#abort] and [#error] are no properties. *)
Definition Request_members : list string :=
  [ "validateInputs"; "checkTimeoutValidity"; "checkBooleanValidation";
    "checkUndefined"; "processBody"; "setupStream"; "cleanupStreamListeners";
    "processHeaders"; "addHeader"; "assignHeader"; "onBodySent";
    "onRequestSent"; "onConnect"; "onResponseStarted"; "onHeaders"; "onData";
    "onUpgrade"; "onComplete"; "onError"; "invokeHandlerMethod"; "onFinally";
    "headersTimeout"; "bodyTimeout"; "method"; "body"; "completed"; "aborted";
    "upgrade"; "path"; "origin"; "idempotent"; "blocking"; "reset"; "host";
    "contentLength"; "contentType"; "endHandler"; "errorHandler" ].

Definition is_member (m : string) : bool := existsb (String.eqb m) Request_members.

(** [this.m(...)] for a name [m] that is no member of the object: the
    property read gives [undefined], and calling it throws a TypeError.
    The class does this with [serializePathWithQuery], [assertRequestHandler]
    (both functions of util.js, not methods) and [abort] (the capability is
    kept in the private field [#abort]). *)
Definition call_undefined_member {A} (m : string) : M A :=
  throw (TypeError ("this." ++ m ++ " is not a function")).

(* ------------------------------------------------------------------------- *)
(** ** class Request *)

Section RequestClass.

Variable env : Env.

(** [record[key]] on the lookup table *)
Fixpoint record_get (tbl : list (string * string)) (key : string) : option string :=
  match tbl with
  | [] => None
  | (k, v) :: rest => if String.eqb k key then Some v else record_get rest key
  end.

(** [record[key]] is truthy *)
Definition record_has (tbl : list (string * string)) (key : string) : bool :=
  match record_get tbl key with
  | Some v => str_truthy v
  | None => false
  end.

Definition jsval_is (v : jsval) (s : string) : bool :=
  match v with JStr t => String.eqb t s | _ => false end.

Definition checkTimeoutValidity (value : jsval) (name : string) : M unit :=
  if negb (nullish value) && (negb (Number_isFinite value) || num_negative value)
  then throw (InvalidArgumentError ("Invalid " ++ name ++ "."))
  else ret tt.

Definition checkBooleanValidation (value : jsval) (name : string) : M unit :=
  if negb (nullish value) && negb (is_boolean value)
  then throw (InvalidArgumentError ("Invalid " ++ name ++ "."))
  else ret tt.

Definition checkUndefined (value : jsval) (name : string) : M unit :=
  if negb (nullish value)
  then throw (InvalidArgumentError ("Invalid " ++ name ++ "."))
  else ret tt.

Definition validateInputs (o : options) : M unit :=
  match o_path o with
  | JStr path =>
      if negb (startsWith path "/") && negb (startsWith path "http://")
         && negb (startsWith path "https://") && negb (jsval_is (o_method o) "CONNECT")
      then throw (InvalidArgumentError "Path must be an absolute URL or start with a slash.")
      else if invalidPathRegex_test env path
      then throw (InvalidArgumentError "Invalid request path.")
      else if match o_method o with
              | JStr m => negb (is_normalized_method m) && negb (isValidHTTPToken m)
              | _ => true
              end
      then throw (InvalidArgumentError "Invalid request method.")
      else if truthy (o_upgrade o) && negb (is_string (o_upgrade o))
      then throw (InvalidArgumentError "Upgrade must be a string.")
      else
        checkTimeoutValidity (o_headersTimeout o) "headersTimeout" ;;
        checkTimeoutValidity (o_bodyTimeout o) "bodyTimeout" ;;
        (if negb (nullish (o_reset o)) && negb (is_boolean (o_reset o))
         then throw (InvalidArgumentError "Invalid reset.")
         else ret tt) ;;
        checkBooleanValidation (o_expectContinue o) "expectContinue" ;;
        checkUndefined (o_throwOnError o) "throwOnError"
  | _ => throw (InvalidArgumentError "Path must be a string.")
  end.

(** [setupStream]: a stream without [autoDestroy] gets an [end] listener;
    every stream gets the [error] listener. *)
Definition setupStream (autoDestroy : bool) : M unit :=
  when (negb autoDestroy)
    (modify (set_endHandler true) ;; emit (BodyOn "end")) ;;
  modify (set_errorHandler true) ;;
  emit (BodyOn "error").

(** The [error] listener that [setupStream] installs:
    [(err) => this.#abort ? this.#abort(err) : this.#error = err] *)
Definition errorHandler_listener (err : error) : M unit :=
  r <- get ;;
  match priv_abort r with
  | Some abort => emit (AbortCalled abort err)
  | None => modify (set_priv_error (Some err))
  end.

Definition cleanupStreamListeners : M unit :=
  r <- get ;;
  when (errorHandler r)
    (emit (BodyOff "error") ;; modify (set_errorHandler false)) ;;
  r <- get ;;
  when (endHandler r)
    (emit (BodyOff "end") ;; modify (set_endHandler false)).

(** The [end] listener: [() => this.cleanupStreamListeners(body)] *)
Definition endHandler_listener : M unit := cleanupStreamListeners.

Definition processBody (b : bodyArg) : M bodyValue :=
  match b with
  | BodyStream autoDestroy => setupStream autoDestroy ;; ret (BStreamRef autoDestroy)
  | BodyString s =>
      ret (if (0 <? Z.of_nat (String.length s)) then BBuffer (utf8_as_latin1 s)
           else BNull)
  | BodyBytes data =>
      ret (if (0 <? Z.of_nat (String.length data)) then BBuffer data else BNull)
  | BodyLazy => ret BLazyRef
  | BodyFalsy | BodyInvalid =>
      throw (InvalidArgumentError
        "Body must be a valid type (string, Buffer, Readable stream, iterable, or async iterable).")
  end.

(** [Map.prototype.set]: an existing key keeps its place *)
Fixpoint map_set (m : list (string * nvalue)) (k : string) (v : nvalue)
  : list (string * nvalue) :=
  match m with
  | [] => [(k, v)]
  | (k', v') :: rest =>
      if String.eqb k' k then (k, v) :: rest else (k', v') :: map_set rest k v
  end.

(** the string conversion of a template literal *)
Definition template (v : scalar) : string :=
  match v with
  | SUndefined => "undefined"
  | SNull => "null"
  | SStr s => s
  | SOther shown => shown
  end.

(** [String(value)] of a normalised header value; an array joins with commas *)
Definition nvalue_to_string (v : nvalue) : string :=
  match v with
  | NStr s => s
  | NArr l => String.concat "," l
  end.

Definition assignHeader (headerName : string) (value : nvalue) (originalKey : string)
  : M unit :=
  if String.eqb headerName "host" then
    r <- get ;;
    match host r, value with
    | None, NStr s => modify (set_host (Some s))
    | _, _ => ret tt
    end
  else if String.eqb headerName "content-length" then
    r <- get ;;
    match contentLength r with
    | None =>
        let n := parseInt10_number (nvalue_to_string value) in
        modify (set_contentLength (Some n)) ;;
        if negb (isFinite n)
        then throw (InvalidArgumentError "Invalid content-length header.")
        else ret tt
    | Some _ => ret tt
    end
  else if String.eqb headerName "content-type" then
    r <- get ;;
    match contentType r with
    | None =>
        modify (set_contentType (Some value)) ;;
        modify (fun r => set_priv_headers (map_set (priv_headers r) originalKey value) r)
    | Some _ => ret tt
    end
  else if String.eqb headerName "transfer-encoding"
       || String.eqb headerName "keep-alive"
       || String.eqb headerName "upgrade" then
    throw (InvalidArgumentError ("Invalid " ++ headerName ++ " header."))
  else if String.eqb headerName "connection" then
    let connValue := match value with NStr s => Some (toLowerCase s) | NArr _ => None end in
    match connValue with
    | Some c =>
        if String.eqb c "close" then modify (set_reset (JBool true))
        else if String.eqb c "keep-alive" then ret tt
        else throw (InvalidArgumentError "Invalid connection header")
    | None => throw (InvalidArgumentError "Invalid connection header")
    end
  else if String.eqb headerName "expect" then
    throw (NotSupportedError "Expect header not supported.")
  else
    modify (fun r => set_priv_headers (map_set (priv_headers r) originalKey value) r).

(** [headerNameLowerCasedRecord[key] || key.toLowerCase()] *)
Definition canonical_name (key : string) : string :=
  match record_get (headerNameLowerCasedRecord env) key with
  | Some v => if str_truthy v then v else toLowerCase key
  | None => toLowerCase key
  end.

Definition addHeader (key : string) (value : hvalue) : M unit :=
  match value with
  | HScalar SUndefined => ret tt
  | _ =>
      let headerName := canonical_name key in
      if negb (record_has (headerNameLowerCasedRecord env) headerName)
         && negb (isValidHTTPToken headerName)
      then throw (InvalidArgumentError "Invalid header key.")
      else
        match value with
        | HArray vs =>
            assignHeader headerName
              (NArr (map (fun v =>
                            match v with
                            | SStr s => if isValidHeaderValue s then s else template v
                            | SNull => ""
                            | _ => template v
                            end) vs))
              key
        | HScalar (SStr s) =>
            if negb (isValidHeaderValue s)
            then throw (InvalidArgumentError ("Invalid " ++ key ++ " header."))
            else assignHeader headerName (NStr s) key
        | HScalar SNull => assignHeader headerName (NStr "") key
        | HScalar v => assignHeader headerName (NStr (template v)) key
        end
  end.

Fixpoint addHeaders (entries : list (string * hvalue)) : M unit :=
  match entries with
  | [] => ret tt
  | (k, v) :: rest => addHeader k v ;; addHeaders rest
  end.

Definition processHeaders (headers : headersArg) : M unit :=
  match headers with
  | HdrArray pairs extra =>
      match extra with
      | Some _ => throw (InvalidArgumentError "Headers array must be even.")
      | None => addHeaders pairs
      end
  | HdrObject entries => addHeaders entries
  | HdrOther => throw (InvalidArgumentError "Headers must be an object or an array.")
  | HdrAbsent => ret tt
  end.

(** *** The lifecycle methods *)

Definition invokeHandlerMethod (c : hcall) : M jsval :=
  r <- get ;;
  match priv_handler r with
  | None => throw (TypeError "Cannot read properties of undefined")
  | Some h =>
      if has_method h (method_of c) then
        emit (HandlerCalled c) ;;
        match run h c with
        | Returns v => ret v
        | Throws err =>
            (* catch (err) { this.abort(err) } *)
            (call_undefined_member "abort" : M unit) ;;
            ret JUndefined
        end
      else ret JUndefined
  end.

Definition onFinally : M unit := cleanupStreamListeners.

Definition onBodySent (chunk : string) : M jsval :=
  invokeHandlerMethod (CallBodySent chunk).

Definition onRequestSent : M jsval :=
  when (hasSubscribers env ChBodySent) (emit (Published ChBodySent)) ;;
  invokeHandlerMethod CallRequestSent.

Definition onConnect (abort : nat) : M jsval :=
  r <- get ;;
  assert (negb (aborted r)) ;;
  assert (negb (completed r)) ;;
  match priv_error r with
  | Some e => emit (AbortCalled abort e) ;; ret JUndefined
  | None =>
      modify (set_priv_abort (Some abort)) ;;
      invokeHandlerMethod (CallConnect abort)
  end.

Definition onResponseStarted : M jsval :=
  invokeHandlerMethod CallResponseStarted.

Definition onHeaders (statusCode : Z) (rawHeaders : list string) (resume : nat)
  (statusText : string) : M jsval :=
  r <- get ;;
  assert (negb (aborted r)) ;;
  assert (negb (completed r)) ;;
  when (hasSubscribers env ChHeaders) (emit (Published ChHeaders)) ;;
  invokeHandlerMethod (CallHeaders statusCode rawHeaders resume statusText).

Definition onData (chunk : string) : M jsval :=
  r <- get ;;
  assert (negb (aborted r)) ;;
  assert (negb (completed r)) ;;
  invokeHandlerMethod (CallData chunk).

Definition onUpgrade (statusCode : Z) (rawHeaders : list string) (socket : nat)
  : M jsval :=
  r <- get ;;
  assert (negb (aborted r)) ;;
  assert (negb (completed r)) ;;
  invokeHandlerMethod (CallUpgrade statusCode rawHeaders socket).

Definition onComplete (trailers : list string) : M jsval :=
  onFinally ;;
  r <- get ;;
  assert (negb (aborted r)) ;;
  assert (negb (completed r)) ;;
  modify (set_completed true) ;;
  when (hasSubscribers env ChTrailers) (emit (Published ChTrailers)) ;;
  invokeHandlerMethod (CallComplete trailers).

Definition onError (err : error) : M jsval :=
  onFinally ;;
  when (hasSubscribers env ChError) (emit (Published ChError)) ;;
  r <- get ;;
  if aborted r then ret JUndefined
  else
    modify (set_aborted true) ;;
    invokeHandlerMethod (CallError err).

(** *** The constructor *)

Definition body_truthy (b : bodyArg) : bool :=
  match b with
  | BodyFalsy => false
  | BodyString s => str_truthy s
  | _ => true
  end.

(** Lines 8 to 27 of the constructor: validation, the fields, the headers. *)
Definition constructor_fields (origin : jsval) (o : options) : M unit :=
  validateInputs o ;;
  modify (set_headersTimeout (o_headersTimeout o)) ;;
  modify (set_bodyTimeout (o_bodyTimeout o)) ;;
  modify (set_method (o_method o)) ;;
  b <- (if body_truthy (o_body o) then processBody (o_body o) else ret BNull) ;;
  modify (set_body b) ;;
  modify (set_completed false) ;;
  modify (set_aborted false) ;;
  modify (set_upgrade (if truthy (o_upgrade o) then o_upgrade o else JNull)) ;;
  p <- (if query_truthy (o_query o)
        then call_undefined_member "serializePathWithQuery"
        else ret (o_path o)) ;;
  modify (set_path p) ;;
  modify (set_origin origin) ;;
  r <- get ;;
  modify (set_idempotent
            (coalesce (o_idempotent o)
               (JBool (jsval_is (method r) "HEAD" || jsval_is (method r) "GET")))) ;;
  modify (set_blocking
            (coalesce (o_blocking o) (JBool (negb (jsval_is (method r) "HEAD"))))) ;;
  modify (set_reset (coalesce (o_reset o) JNull)) ;;
  modify (set_host None) ;;
  modify (set_contentLength None) ;;
  modify (set_contentType None) ;;
  modify (set_priv_headers []) ;;
  processHeaders (o_headers o).

(** The whole constructor: lines 28 to 34 follow. *)
Definition constructor (origin : jsval) (o : options) (handler : Handler) : M unit :=
  constructor_fields origin o ;;
  (call_undefined_member "assertRequestHandler" : M unit) ;;
  modify (set_priv_handler (Some handler)) ;;
  when (hasSubscribers env ChCreate) (emit (Published ChCreate)).

(** The object that the constructor starts from: no field assigned yet. *)
Definition blank : Request :=
  {| headersTimeout := JUndefined; bodyTimeout := JUndefined; method := JUndefined;
     body := BNull; completed := false; aborted := false; upgrade := JUndefined;
     path := JUndefined; origin := JUndefined; idempotent := JUndefined;
     blocking := JUndefined; reset := JUndefined; host := None;
     contentLength := None; contentType := None; endHandler := false;
     errorHandler := false; priv_headers := []; priv_handler := None;
     priv_abort := None; priv_error := None |}.

(** [new Request(origin, options, handler)]: the events, and the object
    when the constructor returns. *)
Definition Request_new (origin : jsval) (o : options) (handler : Handler)
  : list event * result Request :=
  match constructor origin o handler blank with
  | (r, evs, Ok _) => (evs, Ok r)
  | (_, evs, Throw e) => (evs, Throw e)
  end.

(** *** Sequences of calls *)

(** What the transport and the body stream can do to a request. *)
Inductive lifecycle :=
| LConnect (abort : nat)
| LBodySent (chunk : string)
| LRequestSent
| LResponseStarted
| LHeaders (statusCode : Z) (rawHeaders : list string) (resume : nat) (statusText : string)
| LData (chunk : string)
| LUpgrade (statusCode : Z) (rawHeaders : list string) (socket : nat)
| LComplete (trailers : list string)
| LError (e : error)
| LStreamError (e : error)        (* the body stream emits 'error' *)
| LStreamEnd.                     (* the body stream emits 'end' *)

Definition call (l : lifecycle) : M jsval :=
  match l with
  | LConnect abort => onConnect abort
  | LBodySent chunk => onBodySent chunk
  | LRequestSent => onRequestSent
  | LResponseStarted => onResponseStarted
  | LHeaders sc h rs st => onHeaders sc h rs st
  | LData chunk => onData chunk
  | LUpgrade sc h so => onUpgrade sc h so
  | LComplete t => onComplete t
  | LError e => onError e
  | LStreamError e =>
      r <- get ;;
      when (errorHandler r) (errorHandler_listener e) ;;
      ret JUndefined
  | LStreamEnd =>
      r <- get ;;
      when (endHandler r) endHandler_listener ;;
      ret JUndefined
  end.

(** A sequence of calls; a call that throws leaves the request as it was
    at the throw, and the caller goes on. *)
Fixpoint run_calls (ls : list lifecycle) (r : Request) : Request * list event :=
  match ls with
  | [] => (r, [])
  | l :: rest =>
      let '(r1, ev1, _) := call l r in
      let '(r2, ev2) := run_calls rest r1 in
      (r2, (ev1 ++ ev2)%list)
  end.

End RequestClass.

(* ------------------------------------------------------------------------- *)
(** ** Sample data *)

(** An environment: a lookup table with a few well-known names (each name
    and its lower-cased form map to the lower-cased form), the path pattern
    [/[^\u0021-\u00ff]/] and no subscriber on any channel. *)
Definition sample_table : list (string * string) :=
  [ ("Content-Length", "content-length"); ("content-length", "content-length");
    ("Content-Type", "content-type"); ("content-type", "content-type");
    ("Host", "host"); ("host", "host");
    ("Expect", "expect"); ("expect", "expect");
    ("Connection", "connection"); ("connection", "connection") ].

Definition sample_env : Env :=
  {| headerNameLowerCasedRecord := sample_table;
     invalidPathRegex_test :=
       fun p => negb (every (fun c => in_range 0x21 0xff (code c)) p);
     hasSubscribers := fun _ => false |}.

(** The same with a subscriber on every channel. *)
Definition observed_env : Env :=
  {| headerNameLowerCasedRecord := sample_table;
     invalidPathRegex_test := invalidPathRegex_test sample_env;
     hasSubscribers := fun _ => true |}.

(** A handler with every method, each returning [undefined]. *)
Definition quiet_handler : Handler :=
  {| has_method := fun _ => true; run := fun _ => Returns JUndefined |}.

(** A handler whose [onData] throws the error 7. *)
Definition throwing_handler : Handler :=
  {| has_method := fun _ => true;
     run := fun c => match c with
                     | CallData _ => Throws (Foreign 7)
                     | _ => Returns JUndefined
                     end |}.

(** The options [{ path: '/x', method: 'GET' }]. *)
Definition get_x : options :=
  {| o_path := JStr "/x"; o_method := JStr "GET"; o_upgrade := JUndefined;
     o_headersTimeout := JUndefined; o_bodyTimeout := JUndefined;
     o_reset := JUndefined; o_expectContinue := JUndefined;
     o_throwOnError := JUndefined; o_body := BodyFalsy; o_query := QUndefined;
     o_idempotent := JUndefined; o_blocking := JUndefined;
     o_headers := HdrAbsent |}.

Definition with_headers (o : options) (h : headersArg) : options :=
  {| o_path := o_path o; o_method := o_method o; o_upgrade := o_upgrade o;
     o_headersTimeout := o_headersTimeout o; o_bodyTimeout := o_bodyTimeout o;
     o_reset := o_reset o; o_expectContinue := o_expectContinue o;
     o_throwOnError := o_throwOnError o; o_body := o_body o; o_query := o_query o;
     o_idempotent := o_idempotent o; o_blocking := o_blocking o;
     o_headers := h |}.

Definition with_query (o : options) (p : jsval) (q : query) : options :=
  {| o_path := p; o_method := o_method o; o_upgrade := o_upgrade o;
     o_headersTimeout := o_headersTimeout o; o_bodyTimeout := o_bodyTimeout o;
     o_reset := o_reset o; o_expectContinue := o_expectContinue o;
     o_throwOnError := o_throwOnError o; o_body := o_body o; o_query := q;
     o_idempotent := o_idempotent o; o_blocking := o_blocking o;
     o_headers := o_headers o |}.

(** A request at the start of its lifecycle: the fields that the constructor
    assigns for [get_x], with a handler installed. *)
Definition fresh_request (h : Handler) : Request :=
  set_priv_handler (Some h)
    (state_of (constructor_fields sample_env (JStr "http://localhost") get_x blank)).

(** The same with a stream as its body, the listeners attached. *)
Definition streaming_request (h : Handler) : Request :=
  set_errorHandler true (set_endHandler true
    (set_body (BStreamRef false) (fresh_request h))).

(* ------------------------------------------------------------------------- *)
(** ** Notions used in the statements *)

(** a string of decimal digits *)
Definition digits (s : string) : bool := every is_digit s.


(** Every entry of the lookup table maps a name to its lower-cased form. *)
Definition lowercasing_table (tbl : list (string * string)) : bool :=
  forallb (fun kv => String.eqb (snd kv) (toLowerCase (fst kv))) tbl.

(** The names that a caller must not set. *)
Definition framing_header (name : string) : bool :=
  String.eqb name "transfer-encoding" || String.eqb name "keep-alive"
  || String.eqb name "upgrade".

(** CR LF *)
Definition crlf : string := String (ascii_of_nat 13) (String (ascii_of_nat 10) EmptyString).

(** a header value that carries a CR LF *)
Definition injected : string := "a" ++ crlf ++ "b".

(** The key check of [addHeader]. *)
Definition key_accepted (env : Env) (key : string) : bool :=
  record_has (headerNameLowerCasedRecord env) (canonical_name env key)
  || isValidHTTPToken (canonical_name env key).

(** How [addHeader] turns an element of an array into a string. *)
Definition element_string (v : scalar) : string :=
  match v with SNull => "" | _ => template v end.

(** The headers that a caller must not set at all. *)
Definition forbidden_header (name : string) : bool :=
  framing_header name || String.eqb name "expect".

(** The headers ["Content-Length", "5", "Content-Length", "10"]. *)
Definition two_content_lengths : headersArg :=
  HdrArray [ ("Content-Length", HScalar (SStr "5"));
             ("Content-Length", HScalar (SStr "10")) ] None.

(** The entries of a [headers] option that [processHeaders] walks through. *)
Definition header_entries (h : headersArg) : list (string * hvalue) :=
  match h with
  | HdrArray pairs None => pairs
  | HdrObject entries => entries
  | _ => []
  end.

(** The fields of a request for [{ path: '/x', method: 'GET' }], as the
    constructor leaves them before it turns to the headers. *)
Definition get_x_fields (origin : jsval) : Request :=
  {| headersTimeout := JUndefined; bodyTimeout := JUndefined; method := JStr "GET";
     body := BNull; completed := false; aborted := false; upgrade := JNull;
     path := JStr "/x"; origin := origin; idempotent := JBool true;
     blocking := JBool true; reset := JNull; host := None;
     contentLength := None; contentType := None; endHandler := false;
     errorHandler := false; priv_headers := []; priv_handler := None;
     priv_abort := None; priv_error := None |}.

Definition both_flags (r : Request) : bool := completed r && aborted r.

Definition terminal (r : Request) : bool := completed r || aborted r.

(** The calls that require a request that is neither completed nor aborted
    and that the specification names: onComplete, onHeaders, onData, onUpgrade. *)
Definition guarded (l : lifecycle) : bool :=
  match l with
  | LComplete _ | LHeaders _ _ _ _ | LData _ | LUpgrade _ _ _ => true
  | _ => false
  end.

(** No [onError] of the sequence meets a completed request. *)
Fixpoint no_error_after_completion (env : Env) (ls : list lifecycle) (r : Request) : bool :=
  match ls with
  | [] => true
  | l :: rest =>
      match l with
      | LError _ => negb (completed r)
      | _ => true
      end && no_error_after_completion env rest (state_of (call env l r))
  end.

(* ------------------------------------------------------------------------- *)
(** ** More of lib/core/util.js *)

(** [isValidPort(port)]; the argument is given by its string conversion,
    which is what [parseInt] reads. *)
Definition isValidPort (port : string) : bool :=
  match parseInt10_number port with
  | IInt value => (0 <=? value) && (value <=? 65535)
  | INaN | IInf _ => false
  end.

(** [/timeout=(\d+)/.exec(val)]: the digits of the leftmost place where
    "timeout=" is followed by a digit. *)
Fixpoint match_timeout (val : string) : option string :=
  match
    match strip_prefix "timeout=" val with
    | Some r => let (d, _) := span_digits r in if str_truthy d then Some d else None
    | None => None
    end
  with
  | Some d => Some d
  | None =>
      match val with
      | String _ rest => match_timeout rest
      | EmptyString => None
      end
  end.

(** [parseKeepAliveTimeout(val)]; [None] is [null] *)
Definition parseKeepAliveTimeout (val : string) : option intnum :=
  match match_timeout val with
  | Some m1 => Some (times_1000 (parseInt10_number m1))
  | None => None
  end.

(** [s.indexOf(c)] for a one-character needle; [None] is -1 *)
Fixpoint indexOf_char (s : string) (c : ascii) : option nat :=
  match s with
  | EmptyString => None
  | String d r =>
      if Ascii.eqb d c then Some O
      else match indexOf_char r c with
           | Some i => Some (S i)
           | None => None
           end
  end.

(** [s.split(c)[0]]: what precedes the first [c], all of [s] without one *)
Fixpoint split_first (s : string) (c : ascii) : string :=
  match s with
  | EmptyString => EmptyString
  | String d r => if Ascii.eqb d c then EmptyString else String d (split_first r c)
  end.

(** [getHostname(host)].  [slice(1, i)] takes [i - 1] characters from
    position 1; without a closing bracket [indexOf] is -1 and [slice(1, -1)]
    stops before the last character. *)
Definition getHostname (host : string) : string :=
  if startsWith host "["
  then match indexOf_char host "]" with
       | Some i => String.substring 1 (i - 1) host
       | None => String.substring 1 (String.length host - 2) host
       end
  else split_first host ":".

(** The [handler] argument of [assertRequestHandler]: not an object, [null],
    or an object of which each lifecycle member is a function or not. *)
Inductive handlerArg :=
| HaNotObject
| HaNull
| HaObject (is_function : hmethod -> bool).

(** [assert(typeof handler[methodName] === 'function', ...)] for each name *)
Fixpoint assert_methods (is_function : hmethod -> bool) (names : list hmethod)
  : result unit :=
  match names with
  | [] => Ok tt
  | m :: rest => if is_function m then assert_methods is_function rest
                 else Throw AssertionError
  end.

(** [assertRequestHandler(handler, method, upgrade)] *)
Definition assertRequestHandler (handler : handlerArg) (method upgrade : jsval)
  : result unit :=
  match handler with
  | HaNotObject => Throw AssertionError
  | HaNull => Throw (TypeError "Cannot read properties of null")
  | HaObject is_function =>
      assert_methods is_function
        ([OnConnect; OnError] ++
         (if negb (truthy upgrade || jsval_is method "CONNECT")
          then [OnHeaders; OnData; OnComplete] else []))%list
  end.

(** [errorRequest(client, request, err)]: what becomes of the request, what
    [request.onError] did outside, and the error that [client.emit('error', _)]
    is called with, if any. *)
Definition errorRequest (env : Env) (err : error) (request : Request)
  : Request * list event * option error :=
  match onError env err request with
  | (r1, evs, Ok _) =>
      if aborted r1 then (r1, evs, None) else (r1, evs, Some AssertionError)
  | (r1, evs, Throw e) => (r1, evs, Some e)
  end.

(** The loop of [parseRawHeaders] from index [n] on: whether a content-length
    name was seen, and the index of the value of the last content-disposition
    name.  An odd tail reads [undefined.toString] and throws. *)
Fixpoint scan_raw (n : nat) (headers : list string) (hasContentLength : bool)
  (contentDispositionIdx : option nat) {struct headers}
  : result (bool * option nat) :=
  match headers with
  | [] => Ok (hasContentLength, contentDispositionIdx)
  | key :: rest =>
      match rest with
      | [] => Throw (TypeError "Cannot read properties of undefined")
      | _ :: rest' =>
          if String.eqb (toLowerCase key) "content-length"
          then scan_raw (n + 2) rest' true contentDispositionIdx
          else if String.eqb (toLowerCase key) "content-disposition"
          then scan_raw (n + 2) rest' hasContentLength (Some (n + 1)%nat)
          else scan_raw (n + 2) rest' hasContentLength contentDispositionIdx
      end
  end.

(** [ret[i] = f(ret[i])] *)
Fixpoint update_nth (i : nat) (f : string -> string) (l : list string) {struct l}
  : list string :=
  match l with
  | [] => []
  | x :: rest =>
      match i with
      | O => f x :: rest
      | S j => x :: update_nth j f rest
      end
  end.

(** [parseRawHeaders(headers)]; each element of [headers] is given by its
    string conversion. *)
Definition parseRawHeaders (headers : list string) : result (list string) :=
  match scan_raw 0 headers false None with
  | Throw e => Throw e
  | Ok (true, Some idx) => Ok (update_nth idx utf8_as_latin1 headers)
  | Ok _ => Ok headers
  end.

(* ------------------------------------------------------------------------- *)
(** ** More notions used in the statements *)

(** [Map.prototype.get] on the header table *)
Fixpoint map_get (m : list (string * nvalue)) (k : string) : option nvalue :=
  match m with
  | [] => None
  | (k', v') :: rest => if String.eqb k' k then Some v' else map_get rest k
  end.

(** The characters that [isTokenCharCode] accepts, listed. *)
Definition token_code (c : Z) : bool :=
  (c =? 0x21) || in_range 0x23 0x27 c || in_range 0x2a 0x2b c
  || in_range 0x30 0x39 c || (c =? 0x3f) || in_range 0x5e 0x7a c || (c =? 0x7e).

(** The fields that header processing has no business with. *)
Definition outside_headers (r : Request) :=
  (headersTimeout r, bodyTimeout r, method r, body r, completed r, aborted r,
   upgrade r, path r, origin r, idempotent r, blocking r,
   endHandler r, errorHandler r, priv_handler r, priv_abort r, priv_error r).

(** The names that [assignHeader] treats in a way of their own. *)
Definition special_header (name : string) : bool :=
  String.eqb name "host" || String.eqb name "content-length"
  || String.eqb name "content-type" || String.eqb name "connection"
  || forbidden_header name.

(** What [checkTimeoutValidity] lets through. *)
Definition timeout_ok (v : jsval) : bool :=
  match v with
  | JUndefined | JNull => true
  | JNum (Finite q) => Qle_bool 0 q
  | _ => false
  end.

Definition with_body (o : options) (b : bodyArg) : options :=
  {| o_path := o_path o; o_method := o_method o; o_upgrade := o_upgrade o;
     o_headersTimeout := o_headersTimeout o; o_bodyTimeout := o_bodyTimeout o;
     o_reset := o_reset o; o_expectContinue := o_expectContinue o;
     o_throwOnError := o_throwOnError o; o_body := b; o_query := o_query o;
     o_idempotent := o_idempotent o; o_blocking := o_blocking o;
     o_headers := o_headers o |}.

(** The body stream emits 'error' with each of [es] in turn. *)
Definition stream_errors (es : list error) : list lifecycle := map LStreamError es.

(** The single-assignment fields that [r] has are those of [r'], and a reset
    that is on stays on. *)
Definition headers_settled (r r' : Request) : Prop :=
  (forall h, host r = Some h -> host r' = Some h) /\
  (forall n, contentLength r = Some n -> contentLength r' = Some n) /\
  (forall t, contentType r = Some t -> contentType r' = Some t) /\
  (reset r = JBool true -> reset r' = JBool true).

(** The header has a value to process. *)
Definition defined_value (kv : string * hvalue) : bool :=
  match snd kv with HScalar SUndefined => false | _ => true end.

(** The value that [addHeader] hands to [assignHeader]. *)
Definition normalised (v : hvalue) : nvalue :=
  match v with
  | HArray vs => NArr (map element_string vs)
  | HScalar SNull => NStr ""
  | HScalar s => NStr (template s)
  end.

(** The value passes the only check of values: it is not a string that is
    no legal header value. *)
Definition value_accepted (v : hvalue) : bool :=
  match v with
  | HScalar (SStr s) => isValidHeaderValue s
  | _ => true
  end.

(** The options that [validateInputs] lets through. *)
Definition inputs_ok (env : Env) (o : options) : bool :=
  match o_path o, o_method o with
  | JStr p, JStr m =>
      (startsWith p "/" || startsWith p "http://" || startsWith p "https://"
       || String.eqb m "CONNECT")
      && negb (invalidPathRegex_test env p)
      && (is_normalized_method m || isValidHTTPToken m)
      && (negb (truthy (o_upgrade o)) || is_string (o_upgrade o))
      && timeout_ok (o_headersTimeout o) && timeout_ok (o_bodyTimeout o)
      && (nullish (o_reset o) || is_boolean (o_reset o))
      && (nullish (o_expectContinue o) || is_boolean (o_expectContinue o))
      && nullish (o_throwOnError o)
  | _, _ => false
  end.

(** The request as the constructor has it when it turns to the headers, for
    options that pass validation, carry no query and have an accepted body. *)
Definition initial_fields (origin : jsval) (o : options) : Request :=
  {| headersTimeout := o_headersTimeout o; bodyTimeout := o_bodyTimeout o;
     method := o_method o;
     body := match o_body o with
             | BodyStream a => BStreamRef a
             | BodyString s =>
                 if String.eqb s "" then BNull else BBuffer (utf8_as_latin1 s)
             | BodyBytes data =>
                 if String.eqb data "" then BNull else BBuffer data
             | BodyLazy => BLazyRef
             | BodyFalsy | BodyInvalid => BNull
             end;
     completed := false; aborted := false;
     upgrade := if truthy (o_upgrade o) then o_upgrade o else JNull;
     path := o_path o; origin := origin;
     idempotent := coalesce (o_idempotent o)
                     (JBool (jsval_is (o_method o) "HEAD" || jsval_is (o_method o) "GET"));
     blocking := coalesce (o_blocking o) (JBool (negb (jsval_is (o_method o) "HEAD")));
     reset := coalesce (o_reset o) JNull;
     host := None; contentLength := None; contentType := None;
     endHandler := match o_body o with BodyStream a => negb a | _ => false end;
     errorHandler := match o_body o with BodyStream _ => true | _ => false end;
     priv_headers := []; priv_handler := None; priv_abort := None;
     priv_error := None |}.

(** The listeners that the constructor attaches to the body. *)
Definition body_listeners (b : bodyArg) : list event :=
  match b with
  | BodyStream true => [BodyOn "error"]
  | BodyStream false => [BodyOn "end"; BodyOn "error"]
  | _ => []
  end.

(** [m] is a check: it leaves the request alone, calls nothing, returns when
    [ok] holds and throws an InvalidArgumentError otherwise. *)
Definition checks (m : M unit) (ok : bool) : Prop :=
  forall r, exists msg,
    m r = (r, [], if ok then Ok tt else Throw (InvalidArgumentError msg)).

(** The handler call that a call of the transport forwards. *)
Definition forwarded (l : lifecycle) : option hcall :=
  match l with
  | LConnect abort => Some (CallConnect abort)
  | LBodySent chunk => Some (CallBodySent chunk)
  | LRequestSent => Some CallRequestSent
  | LResponseStarted => Some CallResponseStarted
  | LHeaders sc h rs st => Some (CallHeaders sc h rs st)
  | LData chunk => Some (CallData chunk)
  | LUpgrade sc h so => Some (CallUpgrade sc h so)
  | LComplete t => Some (CallComplete t)
  | LError e => Some (CallError e)
  | LStreamError _ | LStreamEnd => None
  end.

(** The calls that have no precondition: onBodySent, onRequestSent and
    onResponseStarted. *)
Definition unguarded (l : lifecycle) : bool :=
  match l with
  | LBodySent _ | LRequestSent | LResponseStarted => true
  | _ => false
  end.

(** What [onFinally] does outside: it takes off the listeners that are on,
    the error listener first. *)
Definition detach_events (r : Request) : list event :=
  ((if errorHandler r then [BodyOff "error"] else []) ++
   (if endHandler r then [BodyOff "end"] else []))%list.

(** The calls that end the lifecycle: onComplete and onError. *)
Definition finishing (l : lifecycle) : bool :=
  match l with
  | LComplete _ | LError _ => true
  | _ => false
  end.

(** The names of a list of raw headers: its elements at even positions. *)
Fixpoint raw_names (headers : list string) : list string :=
  match headers with
  | k :: _ :: rest => k :: raw_names rest
  | _ => []
  end.

(** One of the names lower-cases to [name]. *)
Definition has_raw_name (name : string) (headers : list string) : bool :=
  existsb (fun k => String.eqb (toLowerCase k) name) (raw_names headers).

(** Every code unit is below 0x80. *)
Definition ascii_only (s : string) : bool := every (fun c => code c <? 128) s.

(** [n] times the digit 9 *)
Fixpoint nines (n : nat) : string :=
  match n with
  | O => ""
  | S k => String "9" (nines k)
  end.

(** The string does not start with a digit. *)
Definition no_leading_digit (s : string) : Prop :=
  match s with String c _ => is_digit c = false | EmptyString => True end.

(** A handler whose every method throws the error 7. *)
Definition failing_handler : Handler :=
  {| has_method := fun _ => true; run := fun _ => Throws (Foreign 7) |}.

(** How often the handler's [onComplete] is called among some events. *)
Fixpoint completions (evs : list event) : nat :=
  match evs with
  | [] => O
  | HandlerCalled (CallComplete _) :: rest => S (completions rest)
  | _ :: rest => completions rest
  end.

(** How often the handler's [onError] is called among some events. *)
Fixpoint errors_told (evs : list event) : nat :=
  match evs with
  | [] => O
  | HandlerCalled (CallError _) :: rest => S (errors_told rest)
  | _ :: rest => errors_told rest
  end.

(* ------------------------------------------------------------------------- *)
(** ** Strings *)

Lemma append_empty (s : string) : s ++ "" = s.
Proof. induction s as [|c s IH]; simpl; [reflexivity | now rewrite IH]. Qed.

Lemma strip_prefix_app (p r : string) : strip_prefix p (p ++ r) = Some r.
Proof.
  induction p as [|a p IH]; simpl; [reflexivity|].
  now rewrite Ascii.eqb_refl.
Qed.


(** [span_digits] splits its argument, the first part being digits. *)
Lemma span_digits_split (s d r : string) :
  span_digits s = (d, r) -> s = d ++ r /\ digits d = true.
Proof.
  revert d r; induction s as [|c s IH]; intros d r H; simpl in H.
  - inversion H; subst; split; reflexivity.
  - destruct (is_digit c) eqn:E.
    + destruct (span_digits s) as [d' r'] eqn:S.
      inversion H; subst; clear H.
      destruct (IH _ _ eq_refl) as [-> Hd].
      split; [reflexivity|].
      unfold digits; simpl. now rewrite E.
    + inversion H; subst; split; reflexivity.
Qed.

(** A run of digits followed by something that does not start with a digit
    is what [span_digits] takes. *)
Lemma span_digits_app (d r : string) :
  digits d = true ->
  match r with String c _ => is_digit c = false | EmptyString => True end ->
  span_digits (d ++ r) = (d, r).
Proof.
  intros Hd Hr; induction d as [|c d IH]; simpl.
  - destruct r as [|c r]; [reflexivity|]. simpl. now rewrite Hr.
  - unfold digits in Hd; simpl in Hd.
    apply andb_true_iff in Hd as [Hc Hd].
    rewrite Hc, (IH Hd). reflexivity.
Qed.

Lemma str_truthy_true (s : string) : str_truthy s = true <-> s <> "".
Proof.
  unfold str_truthy. rewrite negb_true_iff. split.
  - intros H ->. now rewrite String.eqb_refl in H.
  - intros H. now apply String.eqb_neq.
Qed.

(* ------------------------------------------------------------------------- *)
(** ** parseRangeHeader *)







(* ------------------------------------------------------------------------- *)
(** ** The lifecycle: the flags [completed] and [aborted] *)

Ltac unfold_methods :=
  cbv [call onError onComplete onHeaders onData onUpgrade onConnect
       onBodySent onRequestSent onResponseStarted onFinally
       endHandler_listener errorHandler_listener cleanupStreamListeners
       invokeHandlerMethod call_undefined_member
       bind ret get modify emit when assert throw
       state_of events_of result_of fst snd negb app] in *.

(** Case analysis on everything a lifecycle method branches on: the fields of
    the request, the subscribers of a channel, the presence of a handler
    method and its outcome. *)
Ltac case_split :=
  repeat (cbn in *;
    match goal with
    | |- context [hasSubscribers ?e ?c] => destruct (hasSubscribers e c) eqn:?
    | |- context [has_method ?h ?m] => destruct (has_method h m) eqn:?
    | |- context [run ?h ?c] => destruct (run h c) eqn:?
    | |- context [match ?x with _ => _ end] => is_var x; destruct x
    | |- context [if ?x then _ else _] => is_var x; destruct x
    end).

Ltac by_cases := unfold_methods; case_split; try reflexivity; try congruence.

(** No call resets a flag. *)
Lemma call_keeps_flags (env : Env) (l : lifecycle) (r : Request) :
  (completed r = true -> completed (state_of (call env l r)) = true) /\
  (aborted r = true -> aborted (state_of (call env l r)) = true).
Proof.
  destruct r, l; split; cbn [completed aborted]; intros ->; by_cases.
Qed.

Lemma run_calls_cons (env : Env) (l : lifecycle) (ls : list lifecycle) (r : Request) :
  fst (run_calls env (l :: ls) r) = fst (run_calls env ls (state_of (call env l r))).
Proof.
  cbn [run_calls]. unfold state_of.
  destruct (call env l r) as [[r1 ev1] res]. cbn [fst].
  now destruct (run_calls env ls r1).
Qed.

Lemma run_calls_keeps_flags (env : Env) (ls : list lifecycle) (r : Request) :
  (completed r = true -> completed (fst (run_calls env ls r)) = true) /\
  (aborted r = true -> aborted (fst (run_calls env ls r)) = true).
Proof.
  revert r; induction ls as [|l ls IH]; intros r; [now split|].
  rewrite run_calls_cons.
  destruct (call_keeps_flags env l r) as [Hc Ha].
  destruct (IH (state_of (call env l r))) as [IHc IHa].
  split; auto.
Qed.

(** On a completed or aborted request the guarded calls fail their assertion
    before anything reaches the handler, and leave the flags alone. *)
Lemma guarded_call_refused (env : Env) (l : lifecycle) (r : Request) :
  terminal r = true -> guarded l = true ->
  result_of (call env l r) = Throw AssertionError /\
  handler_calls (events_of (call env l r)) = [] /\
  completed (state_of (call env l r)) = completed r /\
  aborted (state_of (call env l r)) = aborted r.
Proof.
  unfold terminal.
  destruct r, l; cbn [completed aborted guarded]; intros T G; try discriminate;
    unfold_methods; case_split; try discriminate; repeat split.
Qed.

(** Both flags come to be set only by [onError] on a completed request. *)
Lemma both_flags_only_by_onError (env : Env) (l : lifecycle) (r : Request) :
  both_flags r = false -> both_flags (state_of (call env l r)) = true ->
  completed r = true /\ exists e, l = LError e.
Proof.
  unfold both_flags.
  destruct r, l; cbn [completed aborted]; intros B;
    unfold_methods; case_split; intros H; cbn in *; try congruence;
    (split; [exact (proj1 (andb_prop _ _ H)) | eexists; reflexivity]).
Qed.

Lemma run_calls_exclusive (env : Env) (ls : list lifecycle) (r : Request) :
  both_flags r = false -> no_error_after_completion env ls r = true ->
  both_flags (fst (run_calls env ls r)) = false.
Proof.
  revert r; induction ls as [|l ls IH]; intros r B N; [exact B|].
  rewrite run_calls_cons. cbn [no_error_after_completion] in N.
  apply andb_true_iff in N as [Nl N].
  apply IH; [|exact N].
  destruct (both_flags (state_of (call env l r))) eqn:E; [|reflexivity].
  destruct (both_flags_only_by_onError env l r B E) as [C [e ->]].
  rewrite C in Nl. discriminate.
Qed.

(** [onError] sets [aborted] whatever [completed] is. *)
Lemma onError_sets_aborted (env : Env) (e : error) (r : Request) :
  aborted (state_of (onError env e r)) = true /\
  completed (state_of (onError env e r)) = completed r.
Proof. destruct r; by_cases; split; reflexivity. Qed.

(** C1, as the code has it: along every sequence of calls neither flag goes
    back to false; on a completed or aborted request, onComplete, onHeaders,
    onData and onUpgrade fail their assertion and nothing is forwarded; the
    two flags are never both true as long as no onError meets a completed
    request; onError on a completed request sets [aborted] as well. *)
Theorem lifecycle_flags (env : Env) (ls : list lifecycle) (r : Request) :
  (completed r = true -> completed (fst (run_calls env ls r)) = true) /\
  (aborted r = true -> aborted (fst (run_calls env ls r)) = true) /\
  (forall l, terminal r = true -> guarded l = true ->
     result_of (call env l r) = Throw AssertionError /\
     handler_calls (events_of (call env l r)) = [] /\
     completed (state_of (call env l r)) = completed r /\
     aborted (state_of (call env l r)) = aborted r) /\
  (both_flags r = false -> no_error_after_completion env ls r = true ->
     both_flags (fst (run_calls env ls r)) = false) /\
  (forall e, completed r = true -> both_flags (state_of (onError env e r)) = true).
Proof.
  destruct (run_calls_keeps_flags env ls r) as [Hc Ha].
  repeat split; auto.
  - now apply guarded_call_refused.
  - now apply guarded_call_refused.
  - now apply guarded_call_refused.
  - now apply guarded_call_refused.
  - now apply run_calls_exclusive.
  - intros e C. unfold both_flags.
    destruct (onError_sets_aborted env e r) as [-> ->]. now rewrite C.
Qed.

(** The flags of a request that runs to completion and is then sent more
    data and an error. *)
Lemma lifecycle_flags_witness :
  both_flags (fst (run_calls sample_env
                     [LConnect 1; LHeaders 200 [] 2 "OK"; LData "x"; LComplete [];
                      LData "late"]
                     (fresh_request quiet_handler))) = false /\
  completed (fst (run_calls sample_env [LData "late"; LError (Foreign 1)]
                    (state_of (onComplete sample_env [] (fresh_request quiet_handler)))))
  = true /\
  result_of (call sample_env (LData "late")
               (state_of (onComplete sample_env [] (fresh_request quiet_handler))))
  = Throw AssertionError /\
  handler_calls (events_of (call sample_env (LData "late")
               (state_of (onComplete sample_env [] (fresh_request quiet_handler)))))
  = [].
Proof.
  destruct (lifecycle_flags sample_env
              [LConnect 1; LHeaders 200 [] 2 "OK"; LData "x"; LComplete []; LData "late"]
              (fresh_request quiet_handler)) as (_ & _ & _ & Hex & _).
  destruct (lifecycle_flags sample_env [LData "late"; LError (Foreign 1)]
              (state_of (onComplete sample_env [] (fresh_request quiet_handler))))
    as (Hc & _ & Hg & _ & _).
  split; [apply Hex; reflexivity|].
  split; [apply Hc; reflexivity|].
  destruct (Hg (LData "late") eq_refl eq_refl) as (H1 & H2 & _).
  split; assumption.
Defined.

(** C1 as the specification words it fails: after onComplete, onError leaves
    a request with both flags set. *)
Lemma onError_after_onComplete_counterexample :
  completed (fresh_request quiet_handler) = false /\
  aborted (fresh_request quiet_handler) = false /\
  completed (fst (run_calls sample_env [LComplete []; LError (Foreign 1)]
                    (fresh_request quiet_handler))) = true /\
  aborted (fst (run_calls sample_env [LComplete []; LError (Foreign 1)]
                  (fresh_request quiet_handler))) = true.
Proof. repeat split. Qed.

(* ------------------------------------------------------------------------- *)
(** ** onError, called again *)

(** After an [onError], another [onError] changes nothing and calls neither
    the handler nor the abort capability. *)
Lemma onError_again (env : Env) (e1 e2 : error) (r : Request) :
  let r1 := state_of (onError env e1 r) in
  state_of (onError env e2 r1) = r1 /\
  result_of (onError env e2 r1) = Ok JUndefined /\
  handler_calls (events_of (onError env e2 r1)) = [] /\
  abort_calls (events_of (onError env e2 r1)) = [].
Proof. destruct r; by_cases; repeat split. Qed.

(** All that the later call does outside is to publish on the error channel,
    when that channel has subscribers. *)
Lemma onError_again_events (env : Env) (e1 e2 : error) (r : Request) :
  events_of (onError env e2 (state_of (onError env e1 r)))
  = if hasSubscribers env ChError then [Published ChError] else [].
Proof. destruct r; by_cases. Qed.

(** The first [onError] on a request that is not aborted calls the handler's
    [onError], once, with the error. *)
Lemma onError_first (env : Env) (e : error) (r : Request) (h : Handler) :
  aborted r = false -> priv_handler r = Some h -> has_method h OnError = true ->
  handler_calls (events_of (onError env e r)) = [CallError e].
Proof.
  destruct r; cbn [aborted priv_handler]; intros -> -> H.
  by_cases.
Qed.

(** One [onError] calls the handler at most once. *)
Lemma onError_calls_at_most_once (env : Env) (e : error) (r : Request) :
  (List.length (handler_calls (events_of (onError env e r))) <= 1)%nat.
Proof. destruct r; by_cases; cbn; lia. Qed.

Lemma handler_calls_app (a b : list event) :
  handler_calls (a ++ b) = (handler_calls a ++ handler_calls b)%list.
Proof.
  induction a as [|x a IH]; [reflexivity|].
  destruct x; cbn; now rewrite IH.
Qed.

(** Any number of further [onError] calls leave the request as the first one
    left it, and none reaches the handler. *)
Lemma onError_repeated (env : Env) (e1 : error) (es : list error) (r : Request) :
  let r1 := state_of (onError env e1 r) in
  fst (run_calls env (map LError es) r1) = r1 /\
  handler_calls (snd (run_calls env (map LError es) r1)) = [].
Proof.
  intros r1.
  assert (A : forall e2, state_of (onError env e2 r1) = r1 /\
                         handler_calls (events_of (onError env e2 r1)) = []).
  { intros e2. destruct (onError_again env e1 e2 r) as (Hs & _ & Hc & _).
    split; assumption. }
  clearbody r1.
  induction es as [|e2 es [IHs IHc]]; [now split|].
  destruct (A e2) as [Hs Hc]. unfold state_of, events_of in Hs, Hc.
  cbn [map run_calls call].
  destruct (onError env e2 r1) as [[r2 ev2] res2].
  cbn [fst snd] in Hs, Hc. subst r2.
  destruct (run_calls env (map LError es) r1) as [r3 ev3].
  cbn [fst snd] in *. split; [assumption|].
  now rewrite handler_calls_app, Hc, IHc.
Qed.

(** C5: of two [onError] calls on a request, the first sets [aborted] and,
    on a request not yet aborted, forwards the error to the handler; the
    second, and every later one, changes no field, returns [undefined] and
    calls neither the handler nor the abort capability (it only publishes on
    the error channel when that has subscribers); the handler's [onError]
    runs at most once over all of them. *)
Theorem onError_twice (env : Env) (e1 e2 : error) (es : list error) (r : Request) :
  let first := onError env e1 r in
  let second := onError env e2 (state_of first) in
  aborted (state_of first) = true /\
  (forall h, aborted r = false -> priv_handler r = Some h ->
             has_method h OnError = true ->
             handler_calls (events_of first) = [CallError e1]) /\
  state_of second = state_of first /\
  result_of second = Ok JUndefined /\
  handler_calls (events_of second) = [] /\
  abort_calls (events_of second) = [] /\
  events_of second = (if hasSubscribers env ChError then [Published ChError] else []) /\
  (List.length (handler_calls (events_of first ++ events_of second)) <= 1)%nat /\
  fst (run_calls env (map LError es) (state_of first)) = state_of first /\
  handler_calls (snd (run_calls env (map LError es) (state_of first))) = [].
Proof.
  cbv zeta.
  destruct (onError_again env e1 e2 r) as (Hs & Hr & Hc & Ha).
  destruct (onError_repeated env e1 es r) as (Rs & Rc).
  cbv zeta in *.
  split; [apply onError_sets_aborted|].
  split; [intros h A P H; now apply (onError_first env e1 r h)|].
  repeat (split; [assumption|]).
  split; [apply onError_again_events|].
  split; [|split; assumption].
  rewrite handler_calls_app, Hc, app_nil_r.
  apply onError_calls_at_most_once.
Qed.

(** Two errors on a request with a stream body, with subscribers on every
    channel: the handler hears of the first error only. *)
Lemma onError_twice_witness :
  handler_calls (events_of (onError observed_env (Foreign 1)
                              (streaming_request quiet_handler)))
  = [CallError (Foreign 1)] /\
  state_of (onError observed_env (Foreign 2)
              (state_of (onError observed_env (Foreign 1)
                           (streaming_request quiet_handler))))
  = state_of (onError observed_env (Foreign 1) (streaming_request quiet_handler)) /\
  handler_calls (events_of (onError observed_env (Foreign 2)
              (state_of (onError observed_env (Foreign 1)
                           (streaming_request quiet_handler))))) = [].
Proof.
  destruct (onError_twice observed_env (Foreign 1) (Foreign 2) []
              (streaming_request quiet_handler))
    as (_ & H1 & H2 & _ & H3 & _).
  split; [exact (H1 quiet_handler eq_refl eq_refl eq_refl)|].
  split; assumption.
Defined.

(* ------------------------------------------------------------------------- *)
(** ** onConnect and the deferred error *)

(** The [error] listener before any abort capability exists: the error goes
    to the private field, nothing is called. *)
Lemma errorHandler_listener_defers (e : error) (r : Request) :
  priv_abort r = None ->
  errorHandler_listener e r = (set_priv_error (Some e) r, [], Ok tt).
Proof. destruct r; cbn [priv_abort]; intros ->. reflexivity. Qed.

(** The [error] listener once the capability is there: it is called. *)
Lemma errorHandler_listener_aborts (e : error) (abort : nat) (r : Request) :
  priv_abort r = Some abort ->
  errorHandler_listener e r = (r, [AbortCalled abort e], Ok tt).
Proof. destruct r; cbn [priv_abort]; intros ->. reflexivity. Qed.

Lemma onConnect_replays (abort : nat) (e : error) (r : Request) :
  aborted r = false -> completed r = false -> priv_error r = Some e ->
  onConnect abort r = (r, [AbortCalled abort e], Ok JUndefined).
Proof.
  destruct r; cbn [aborted completed priv_error]; intros -> -> ->. reflexivity.
Qed.

Lemma onConnect_forwards (abort : nat) (r : Request) :
  aborted r = false -> completed r = false -> priv_error r = None ->
  state_of (onConnect abort r) = set_priv_abort (Some abort) r /\
  abort_calls (events_of (onConnect abort r)) = [] /\
  forall h, priv_handler r = Some h -> has_method h OnConnect = true ->
            handler_calls (events_of (onConnect abort r)) = [CallConnect abort].
Proof.
  destruct r; cbn [aborted completed priv_error priv_handler]; intros -> -> ->.
  split; [|split]; [by_cases | by_cases |].
  intros h -> H. by_cases.
Qed.

(** C7: on a request that is neither aborted nor completed, an error of the
    body stream that arrives before any abort capability exists is kept;
    [onConnect(abort)] then calls [abort] with exactly that error, does not
    call the handler and does not store the capability.  Without a deferred
    error, [onConnect] stores the capability and forwards to the handler's
    [onConnect]. *)
Theorem onConnect_deferred_error (abort : nat) (r : Request) :
  aborted r = false -> completed r = false ->
  (forall e, priv_abort r = None ->
     let r1 := state_of (errorHandler_listener e r) in
     events_of (errorHandler_listener e r) = [] /\
     priv_error r1 = Some e /\
     onConnect abort r1 = (r1, [AbortCalled abort e], Ok JUndefined)) /\
  (forall e, priv_error r = Some e ->
     onConnect abort r = (r, [AbortCalled abort e], Ok JUndefined)) /\
  (priv_error r = None ->
     priv_abort (state_of (onConnect abort r)) = Some abort /\
     abort_calls (events_of (onConnect abort r)) = [] /\
     forall h, priv_handler r = Some h -> has_method h OnConnect = true ->
               handler_calls (events_of (onConnect abort r)) = [CallConnect abort]).
Proof.
  intros A C. split; [|split].
  - intros e P. cbv zeta. rewrite (errorHandler_listener_defers e r P).
    cbn [state_of events_of fst snd].
    split; [reflexivity|]. split; [now destruct r|].
    apply onConnect_replays; now destruct r.
  - intros e E. now apply onConnect_replays.
  - intros E. destruct (onConnect_forwards abort r A C E) as (Hs & Ha & Hh).
    split; [|split; assumption]. rewrite Hs. now destruct r.
Qed.

(** A request whose body stream fails with error 9 before the transport
    connects with capability 3, and one whose stream does not fail. *)
Lemma onConnect_deferred_error_witness :
  onConnect 3 (state_of (errorHandler_listener (Foreign 9)
                           (streaming_request quiet_handler)))
  = (state_of (errorHandler_listener (Foreign 9) (streaming_request quiet_handler)),
     [AbortCalled 3 (Foreign 9)], Ok JUndefined) /\
  priv_abort (state_of (onConnect 3 (streaming_request quiet_handler))) = Some 3%nat /\
  handler_calls (events_of (onConnect 3 (streaming_request quiet_handler)))
  = [CallConnect 3].
Proof.
  destruct (onConnect_deferred_error 3 (streaming_request quiet_handler) eq_refl eq_refl)
    as (H1 & _ & H3).
  destruct (H1 (Foreign 9) eq_refl) as (_ & _ & H).
  destruct (H3 eq_refl) as (Hs & _ & Hh).
  split; [exact H|]. split; [exact Hs|].
  exact (Hh quiet_handler eq_refl eq_refl).
Defined.

(* ------------------------------------------------------------------------- *)
(** ** A handler method that throws *)

(** The names the class calls on [this] without declaring them. *)
Lemma undeclared_members :
  is_member "abort" = false /\
  is_member "assertRequestHandler" = false /\
  is_member "serializePathWithQuery" = false.
Proof. repeat split. Qed.

(** When the handler method throws, the catch block calls [this.abort], which
    is no member: a TypeError leaves [invokeHandlerMethod], the thrown error
    is dropped and no abort capability is called, stored or not. *)
Lemma invokeHandlerMethod_throw (c : hcall) (e : error) (h : Handler) (r : Request) :
  priv_handler r = Some h -> has_method h (method_of c) = true ->
  run h c = Throws e ->
  invokeHandlerMethod c r
  = (r, [HandlerCalled c], Throw (TypeError "this.abort is not a function")).
Proof.
  destruct r; cbn [priv_handler]; intros -> H R.
  cbv [invokeHandlerMethod bind get emit ret call_undefined_member throw app].
  cbn [priv_handler]. rewrite H, R. reflexivity.
Qed.

(** A handler whose [onData] throws error 7. *)
Lemma invokeHandlerMethod_throw_witness :
  invokeHandlerMethod (CallData "x") (fresh_request throwing_handler)
  = (fresh_request throwing_handler, [HandlerCalled (CallData "x")],
     Throw (TypeError "this.abort is not a function")).
Proof.
  exact (invokeHandlerMethod_throw (CallData "x") (Foreign 7) throwing_handler
           (fresh_request throwing_handler) eq_refl eq_refl eq_refl).
Defined.

(** C3 on the code: the transport connects with capability 3, then delivers
    data to a handler whose [onData] throws error 7.  [onData] throws a
    TypeError to the transport, and the capability is never called. *)
Theorem onData_throw_reaches_transport :
  let r := state_of (onConnect 3 (fresh_request throwing_handler)) in
  priv_abort r = Some 3%nat /\
  result_of (onData "x" r) = Throw (TypeError "this.abort is not a function") /\
  abort_calls (events_of (onData "x" r)) = [] /\
  handler_calls (events_of (onData "x" r)) = [CallData "x"].
Proof. repeat split. Qed.

(* ------------------------------------------------------------------------- *)
(** ** Header names *)

Lemma record_get_lowercasing (tbl : list (string * string)) (k v : string) :
  lowercasing_table tbl = true -> record_get tbl k = Some v -> v = toLowerCase k.
Proof.
  induction tbl as [|[k' v'] tbl IH]; cbn; [discriminate|].
  intros H G. apply andb_true_iff in H as [H1 H2].
  destruct (String.eqb k' k) eqn:E.
  - apply String.eqb_eq in E, H1. congruence.
  - now apply IH.
Qed.

(** With a table that lower-cases, the canonical name is the lower-cased key. *)
Lemma canonical_name_lowercasing (env : Env) (key : string) :
  lowercasing_table (headerNameLowerCasedRecord env) = true ->
  canonical_name env key = toLowerCase key.
Proof.
  intros H. unfold canonical_name.
  destruct (record_get (headerNameLowerCasedRecord env) key) as [v|] eqn:G;
    [|reflexivity].
  rewrite (record_get_lowercasing _ _ _ H G). now destruct (str_truthy _).
Qed.

(* ------------------------------------------------------------------------- *)
(** ** Header values *)

(** A string value that is not a legal header value is refused: [addHeader]
    throws an InvalidArgumentError and leaves the request alone. *)
Lemma addHeader_scalar_invalid (env : Env) (key s : string) (r : Request) :
  isValidHeaderValue s = false ->
  state_of (addHeader env key (HScalar (SStr s)) r) = r /\
  events_of (addHeader env key (HScalar (SStr s)) r) = [] /\
  exists msg, result_of (addHeader env key (HScalar (SStr s)) r)
              = Throw (InvalidArgumentError msg).
Proof.
  intros V. unfold addHeader. rewrite V.
  destruct (negb _ && negb _); cbn; repeat split; eexists; reflexivity.
Qed.

(** A legal header value never holds a CR or an LF. *)
Lemma valid_value_no_crlf (s : string) :
  isValidHeaderValue s = true ->
  includes_char s (ascii_of_nat 13) = false /\
  includes_char s (ascii_of_nat 10) = false.
Proof.
  induction s as [|c s IH]; [now split|].
  unfold isValidHeaderValue; cbn [every includes_char].
  intros H. apply andb_true_iff in H as [Hc Hs].
  destruct (IH Hs) as [I1 I2]. rewrite I1, I2.
  destruct (Ascii.eqb c (ascii_of_nat 13)) eqn:E1.
  { apply Ascii.eqb_eq in E1; subst c; discriminate. }
  destruct (Ascii.eqb c (ascii_of_nat 10)) eqn:E2.
  { apply Ascii.eqb_eq in E2; subst c; discriminate. }
  now split.
Qed.

(** The value of an array is not checked: whatever [isValidHeaderValue] says
    of its elements, each one goes on as its own string. *)
Lemma addHeader_array_unchecked (env : Env) (key : string) (vs : list scalar)
  (r : Request) :
  key_accepted env key = true ->
  addHeader env key (HArray vs) r
  = assignHeader (canonical_name env key) (NArr (map element_string vs)) key r.
Proof.
  unfold key_accepted, addHeader. intros K.
  apply orb_true_iff in K.
  replace (negb _ && negb _) with false
    by (destruct K as [-> | ->]; cbn; now rewrite ?andb_false_r).
  erewrite map_ext; [reflexivity|].
  intros [ | |s|s]; cbn; try reflexivity. now destruct (isValidHeaderValue s).
Qed.

(** The array ["a\r\nb"] under the name accept. *)
Lemma addHeader_array_unchecked_witness :
  addHeader sample_env "accept" (HArray [SStr injected]) (fresh_request quiet_handler)
  = assignHeader "accept" (NArr [injected]) "accept" (fresh_request quiet_handler).
Proof.
  exact (addHeader_array_unchecked sample_env "accept" [SStr injected]
           (fresh_request quiet_handler) eq_refl).
Defined.

(** C2 on the code: the header [accept: ["a\r\nb"]].  The element is not a
    legal header value, the scalar ["a\r\nb"] is refused, and yet the array
    is accepted and its element stored in the header table. *)
Theorem addHeader_array_stores_crlf :
  isValidHeaderValue injected = false /\
  includes_char injected (ascii_of_nat 13) = true /\
  result_of (addHeader sample_env "accept" (HScalar (SStr injected))
               (fresh_request quiet_handler))
  = Throw (InvalidArgumentError "Invalid accept header.") /\
  result_of (addHeader sample_env "accept" (HArray [SStr injected])
               (fresh_request quiet_handler)) = Ok tt /\
  priv_headers (state_of (addHeader sample_env "accept" (HArray [SStr injected])
                            (fresh_request quiet_handler)))
  = [("accept", NArr [injected])].
Proof. repeat split. Qed.

(* ------------------------------------------------------------------------- *)
(** ** Numbers *)

(** Below 2^53 an integer is a double. *)
Lemma to_double_small (z : Z) : Z.abs z < 2 ^ 53 -> to_double z = Some z.
Proof. intros H. unfold to_double. apply Z.ltb_lt in H. now rewrite H. Qed.

(** From 2^53 on, rounding does not go below the leading power of two. *)
Lemma to_double_rounds (z : Z) :
  2 ^ 53 <= z ->
  exists r, 2 ^ Z.log2 z <= r /\
    to_double z = if 2 ^ 1024 <=? r then None else Some r.
Proof.
  intros H. assert (P : 0 < z) by (pose proof (Z.pow_pos_nonneg 2 53); lia).
  unfold to_double. rewrite (Z.abs_eq z) by lia.
  destruct (z <? 2 ^ 53) eqn:L; [apply Z.ltb_lt in L; lia|]. clear L.
  cbv zeta. rewrite (Z.sgn_pos z P).
  set (ulp := 2 ^ (Z.log2 z - 52)).
  match goal with
  | |- context [(if ?c then ?a else ?b) * ulp] => set (q' := if c then a else b)
  end.
  exists (q' * ulp). split; [|now rewrite Z.mul_1_l].
  assert (E : 53 <= Z.log2 z) by (apply Z.log2_le_pow2; lia).
  assert (U : 0 < ulp) by (apply Z.pow_pos_nonneg; lia).
  assert (S : 2 ^ Z.log2 z = 2 ^ 52 * ulp).
  { unfold ulp. rewrite <- Z.pow_add_r by lia. f_equal. lia. }
  assert (Q : 2 ^ 52 <= z / ulp).
  { apply Z.div_le_lower_bound; [exact U|].
    rewrite Z.mul_comm, <- S. apply Z.log2_spec. exact P. }
  assert (Q' : z / ulp <= q').
  { unfold q'. match goal with |- context [if ?c then _ else _] => destruct c end; lia. }
  rewrite S. apply Z.mul_le_mono_nonneg_r; lia.
Qed.

Lemma number_of_small (z : Z) : Z.abs z < 2 ^ 53 -> number_of z = IInt z.
Proof. intros H. unfold number_of. now rewrite (to_double_small z H). Qed.

Lemma number_of_large (z : Z) :
  2 ^ 53 <= z ->
  number_of z = IInf false \/ exists d, number_of z = IInt d /\ 2 ^ 53 <= d.
Proof.
  intros H. destruct (to_double_rounds z H) as (r & R & E).
  assert (P : 0 < z) by (pose proof (Z.pow_pos_nonneg 2 53); lia).
  assert (L : 2 ^ 53 <= 2 ^ Z.log2 z).
  { apply Z.pow_le_mono_r; [lia|]. apply Z.log2_le_pow2; lia. }
  unfold number_of. rewrite E.
  destruct (2 ^ 1024 <=? r).
  - left. f_equal. apply Z.ltb_ge. lia.
  - right. exists r. split; [reflexivity|lia].
Qed.

(** From 2^1024 on, an integer is Infinity as a Number. *)
Lemma number_of_huge (z : Z) : 2 ^ 1024 <= z -> number_of z = IInf false.
Proof.
  intros H.
  assert (P : 0 < z) by (pose proof (Z.pow_pos_nonneg 2 1024); lia).
  assert (H53 : 2 ^ 53 <= z).
  { transitivity (2 ^ 1024); [|exact H]. apply Z.pow_le_mono_r; lia. }
  destruct (to_double_rounds z H53) as (r & R & E).
  assert (L : 2 ^ 1024 <= 2 ^ Z.log2 z).
  { apply Z.pow_le_mono_r; [lia|]. apply Z.log2_le_pow2; lia. }
  unfold number_of. rewrite E.
  destruct (2 ^ 1024 <=? r) eqn:C.
  - f_equal. apply Z.ltb_ge. lia.
  - apply Z.leb_gt in C. lia.
Qed.

(** Rounding is symmetric. *)
Lemma to_double_opp (z : Z) :
  to_double (- z) = option_map Z.opp (to_double z).
Proof.
  unfold to_double. rewrite Z.abs_opp, Z.sgn_opp.
  destruct (Z.abs z <? 2 ^ 53); [reflexivity|].
  cbv zeta.
  match goal with |- context [2 ^ 1024 <=? ?r] => destruct (2 ^ 1024 <=? r) end;
    [reflexivity|].
  cbn [option_map]. f_equal. lia.
Qed.

(** The Number of a negative integer is not in the range of ports. *)
Lemma number_of_negative (z : Z) :
  0 < z ->
  match number_of (- z) with
  | IInt d => (0 <=? d) && (d <=? 65535)
  | INaN | IInf _ => false
  end = false.
Proof.
  intros H. destruct (Z.lt_ge_cases z (2 ^ 53)) as [S|L].
  - rewrite number_of_small by lia.
    destruct (0 <=? - z) eqn:C; [apply Z.leb_le in C; lia|reflexivity].
  - unfold number_of. rewrite to_double_opp.
    destruct (to_double_rounds z L) as (r & R & E). rewrite E.
    destruct (2 ^ 1024 <=? r); [reflexivity|]. cbn [option_map].
    assert (P : 0 < 2 ^ Z.log2 z) by (apply Z.pow_pos_nonneg; [lia|apply Z.log2_nonneg]).
    destruct (0 <=? - r) eqn:C; [apply Z.leb_le in C; lia|reflexivity].
Qed.

Lemma number_of_nonneg (z : Z) :
  0 <= z ->
  number_of z = IInf false \/ exists d, number_of z = IInt d /\ 0 <= d.
Proof.
  intros H. destruct (Z.lt_ge_cases z (2 ^ 53)) as [S|L].
  - right. exists z. split; [apply number_of_small; lia|exact H].
  - destruct (number_of_large z L) as [I|(d & E & D)]; [now left|].
    right. exists d. split; [exact E|]. pose proof (Z.pow_pos_nonneg 2 53). lia.
Qed.

Lemma digits_value_nonneg (d : string) (acc : Z) :
  digits d = true -> 0 <= acc -> 0 <= digits_value acc d.
Proof.
  revert acc; induction d as [|c d IH]; intros acc H A; cbn [digits_value];
    [exact A|].
  unfold digits in H; cbn [every] in H. apply andb_true_iff in H as [Hc Hd].
  apply IH; [exact Hd|].
  unfold is_digit, in_range in Hc. apply andb_true_iff in Hc as [L _].
  apply Z.leb_le in L. unfold digit_val. lia.
Qed.

(** A digit is no white space and no sign. *)
Lemma parseInt10_leading_digit (c : ascii) (s : string) :
  is_digit c = true ->
  parseInt10 (String c s)
  = match span_digits (String c s) with
    | (EmptyString, _) => None
    | (ds, _) => Some (digits_value 0 ds)
    end.
Proof.
  destruct c as [[] [] [] [] [] [] [] []]; intros H; try discriminate H;
    reflexivity.
Qed.

Lemma parseInt10_digits (d rest : string) :
  digits d = true -> d <> "" -> no_leading_digit rest ->
  parseInt10 (d ++ rest) = Some (digits_value 0 d).
Proof.
  intros D N R. destruct d as [|c d]; [congruence|].
  assert (Hc : is_digit c = true).
  { unfold digits in D; cbn [every] in D. now apply andb_true_iff in D as [Hc _]. }
  change (String c d ++ rest) with (String c (d ++ rest)).
  rewrite (parseInt10_leading_digit c _ Hc).
  change (String c (d ++ rest)) with (String c d ++ rest).
  now rewrite (span_digits_app (String c d) rest D R).
Qed.

(** Leading digits are read as the Number of their value. *)
Lemma parseInt10_number_digits (d rest : string) :
  digits d = true -> d <> "" -> no_leading_digit rest ->
  parseInt10_number (d ++ rest) = number_of (digits_value 0 d).
Proof.
  intros D N R. unfold parseInt10_number.
  now rewrite (parseInt10_digits d rest D N R).
Qed.

(* ------------------------------------------------------------------------- *)
(** ** content-length *)

Lemma assignHeader_content_length_first (value : nvalue) (key : string)
  (r : Request) :
  contentLength r = None ->
  assignHeader "content-length" value key r
  = (set_contentLength (Some (parseInt10_number (nvalue_to_string value))) r, [],
     if isFinite (parseInt10_number (nvalue_to_string value)) then Ok tt
     else Throw (InvalidArgumentError "Invalid content-length header.")).
Proof.
  destruct r; cbn [contentLength]; intros ->.
  cbv [assignHeader bind get modify ret throw app].
  cbn -[parseInt10_number].
  now destruct (parseInt10_number (nvalue_to_string value)).
Qed.

Lemma assignHeader_content_length_later (value : nvalue) (key : string) (n : intnum)
  (r : Request) :
  contentLength r = Some n ->
  assignHeader "content-length" value key r = (r, [], Ok tt).
Proof. destruct r; cbn [contentLength]; intros ->. reflexivity. Qed.

(** A header that passes the key check and the value check goes to
    [assignHeader] under its canonical name, with its normalised value. *)
Lemma addHeader_accepted (env : Env) (key : string) (value : hvalue) (r : Request) :
  value <> HScalar SUndefined ->
  key_accepted env key = true -> value_accepted value = true ->
  addHeader env key value r
  = assignHeader (canonical_name env key) (normalised value) key r.
Proof.
  intros D K V.
  destruct value as [[ | |s|s]|vs]; try congruence;
    try (apply addHeader_array_unchecked; exact K);
    unfold addHeader; unfold key_accepted in K; apply orb_true_iff in K;
    (replace (negb _ && negb _) with false
       by (destruct K as [-> | ->]; cbn; now rewrite ?andb_false_r));
    cbn in V; rewrite ?V; reflexivity.
Qed.

(** A string that is no legal header value is refused under a key that
    passes the key check, with the key in the message. *)
Lemma addHeader_value_refused (env : Env) (key s : string) (r : Request) :
  key_accepted env key = true -> isValidHeaderValue s = false ->
  addHeader env key (HScalar (SStr s)) r
  = (r, [], Throw (InvalidArgumentError ("Invalid " ++ key ++ " header."))).
Proof.
  intros K V. unfold addHeader. unfold key_accepted in K.
  apply orb_true_iff in K.
  replace (negb _ && negb _) with false
    by (destruct K as [-> | ->]; cbn; now rewrite ?andb_false_r).
  now rewrite V.
Qed.

(** A legal string value under a key that lower-cases to content-length,
    with a table that knows the name, reaches [assignHeader]. *)
Lemma addHeader_content_length (env : Env) (key s : string) (r : Request) :
  lowercasing_table (headerNameLowerCasedRecord env) = true ->
  record_has (headerNameLowerCasedRecord env) "content-length" = true ->
  toLowerCase key = "content-length" -> isValidHeaderValue s = true ->
  addHeader env key (HScalar (SStr s)) r
  = assignHeader "content-length" (NStr s) key r.
Proof.
  intros L H K V. unfold addHeader.
  rewrite (canonical_name_lowercasing env key L), K, H, V. reflexivity.
Qed.

Lemma processHeaders_two_content_lengths (env : Env) (r : Request) :
  lowercasing_table (headerNameLowerCasedRecord env) = true ->
  record_has (headerNameLowerCasedRecord env) "content-length" = true ->
  contentLength r = None ->
  processHeaders env two_content_lengths r
  = (set_contentLength (Some (IInt 5)) r, [], Ok tt).
Proof.
  intros L H C. cbn [processHeaders two_content_lengths addHeaders].
  unfold bind at 1.
  rewrite (addHeader_content_length env "Content-Length" "5" r L H eq_refl eq_refl).
  rewrite (assignHeader_content_length_first (NStr "5") "Content-Length" r C).
  change (parseInt10_number (nvalue_to_string (NStr "5"))) with (IInt 5).
  cbn [isFinite].
  unfold bind at 1.
  rewrite (addHeader_content_length env "Content-Length" "10" _ L H eq_refl eq_refl).
  rewrite (assignHeader_content_length_later (NStr "10") "Content-Length" (IInt 5))
    by now destruct r.
  reflexivity.
Qed.

(** The fields that the constructor assigns for [{ path: '/x', method: 'GET' }]
    and any headers, before it processes the headers. *)
Lemma constructor_fields_get_x (env : Env) (origin : jsval) (h : headersArg) :
  invalidPathRegex_test env "/x" = false ->
  constructor_fields env origin (with_headers get_x h) blank
  = processHeaders env h (get_x_fields origin).
Proof.
  intros P. unfold constructor_fields, validateInputs.
  cbn [with_headers get_x o_path o_method o_upgrade o_headersTimeout o_bodyTimeout
       o_reset o_expectContinue o_throwOnError o_body o_query o_idempotent
       o_blocking o_headers].
  rewrite P. cbn -[processHeaders].
  unfold bind, ret, get, modify. cbn -[processHeaders].
  fold (get_x_fields origin).
  now destruct (processHeaders env h _) as [[r evs] res].
Qed.

(** C4, as the code has it.  A header whose name is content-length and whose
    key passes the key check is first checked as a value: a string that is no
    legal header value is refused with "Invalid <key> header.", also when a
    content length is already set.  A value that passes is, on a request
    without content length, parsed with [parseInt] and stored as a Number:
    a finite one, which can be negative, is kept without error; NaN and an
    infinity are stored too and the header is refused with "Invalid
    content-length header.".  On a request with a content length the header
    is ignored without error.  Leading digits are read exactly when their
    value is below 2^53, and as Infinity when it is 2^1024 or more.  With the
    headers ["Content-Length", "5", "Content-Length", "10"] the constructor's
    header processing ends without error and with [contentLength] 5. *)
Theorem content_length_first_wins (env : Env) (origin : jsval) (key : string)
  (value : hvalue) (r : Request) :
  (canonical_name env key = "content-length" -> key_accepted env key = true ->
   value <> HScalar SUndefined ->
   let n := parseInt10_number (nvalue_to_string (normalised value)) in
   (value_accepted value = false ->
      addHeader env key value r
      = (r, [], Throw (InvalidArgumentError ("Invalid " ++ key ++ " header.")))) /\
   (value_accepted value = true -> contentLength r = None -> isFinite n = true ->
      addHeader env key value r = (set_contentLength (Some n) r, [], Ok tt)) /\
   (value_accepted value = true -> contentLength r = None -> isFinite n = false ->
      addHeader env key value r
      = (set_contentLength (Some n) r, [],
         Throw (InvalidArgumentError "Invalid content-length header."))) /\
   (value_accepted value = true -> forall m, contentLength r = Some m ->
      addHeader env key value r = (r, [], Ok tt))) /\
  (forall d rest, digits d = true -> d <> "" -> no_leading_digit rest ->
     (digits_value 0 d < 2 ^ 53 ->
        parseInt10_number (d ++ rest) = IInt (digits_value 0 d)) /\
     (2 ^ 1024 <= digits_value 0 d ->
        parseInt10_number (d ++ rest) = IInf false)) /\
  (lowercasing_table (headerNameLowerCasedRecord env) = true ->
   record_has (headerNameLowerCasedRecord env) "content-length" = true ->
   invalidPathRegex_test env "/x" = false ->
   constructor_fields env origin (with_headers get_x two_content_lengths) blank
   = (set_contentLength (Some (IInt 5)) (get_x_fields origin), [], Ok tt)).
Proof.
  split; [|split].
  - intros C K D n. split; [|split; [|split]].
    + intros V. destruct value as [[ | |s|s]|vs]; try discriminate V.
      apply addHeader_value_refused; assumption.
    + intros V L F.
      rewrite (addHeader_accepted env key value r D K V), C.
      rewrite (assignHeader_content_length_first _ key r L).
      fold n. now rewrite F.
    + intros V L F.
      rewrite (addHeader_accepted env key value r D K V), C.
      rewrite (assignHeader_content_length_first _ key r L).
      fold n. now rewrite F.
    + intros V m L.
      rewrite (addHeader_accepted env key value r D K V), C.
      exact (assignHeader_content_length_later _ key m r L).
  - intros d rest D N R.
    rewrite (parseInt10_number_digits d rest D N R).
    pose proof (digits_value_nonneg d 0 D (Z.le_refl 0)) as P.
    split; intros H; [apply number_of_small; lia | now apply number_of_huge].
  - intros L H P. rewrite (constructor_fields_get_x env origin _ P).
    now apply processHeaders_two_content_lengths.
Qed.

(** With the sample table: "42" is stored and "-5" too; "abc" is refused and
    leaves NaN; 310 digits are refused and leave Infinity; after a first
    header, "10" is ignored and a value with a CR LF is refused; the two
    headers of the example leave 5. *)
Lemma content_length_first_wins_witness :
  let r := get_x_fields JNull in
  let r5 := set_contentLength (Some (IInt 5)) r in
  let add value := addHeader sample_env "Content-Length" (HScalar (SStr value)) in
  let refused := Throw (InvalidArgumentError "Invalid content-length header.") in
  add "42" r = (set_contentLength (Some (IInt 42)) r, [], Ok tt) /\
  add "abc" r = (set_contentLength (Some INaN) r, [], refused) /\
  add (nines 310) r = (set_contentLength (Some (IInf false)) r, [], refused) /\
  add "10" r5 = (r5, [], Ok tt) /\
  add ("1" ++ crlf ++ "0") r5
  = (r5, [], Throw (InvalidArgumentError "Invalid Content-Length header.")) /\
  parseInt10_number "12 bytes" = IInt 12 /\
  contentLength
    (state_of (constructor_fields sample_env JNull
                 (with_headers get_x two_content_lengths) blank))
  = Some (IInt 5).
Proof.
  cbv zeta.
  assert (D : forall s, HScalar (SStr s) <> HScalar SUndefined) by discriminate.
  assert (N : "12" <> "") by discriminate.
  pose (thm := fun value r =>
          content_length_first_wins sample_env JNull "Content-Length"
            (HScalar (SStr value)) r).
  split; [|split; [|split; [|split; [|split; [|split]]]]].
  - destruct (thm "42" (get_x_fields JNull)) as [H _].
    destruct (H eq_refl eq_refl (D _)) as (_ & H2 & _).
    exact (H2 eq_refl eq_refl eq_refl).
  - destruct (thm "abc" (get_x_fields JNull)) as [H _].
    destruct (H eq_refl eq_refl (D _)) as (_ & _ & H3 & _).
    exact (H3 eq_refl eq_refl eq_refl).
  - destruct (thm (nines 310) (get_x_fields JNull)) as [H _].
    destruct (H eq_refl eq_refl (D _)) as (_ & _ & H3 & _).
    assert (V : value_accepted (HScalar (SStr (nines 310))) = true)
      by (vm_compute; reflexivity).
    assert (F : isFinite (parseInt10_number (nines 310)) = false)
      by (vm_compute; reflexivity).
    assert (E : parseInt10_number (nines 310) = IInf false)
      by (vm_compute; reflexivity).
    rewrite <- E. exact (H3 V eq_refl F).
  - destruct (thm "10" (set_contentLength (Some (IInt 5)) (get_x_fields JNull)))
      as [H _].
    destruct (H eq_refl eq_refl (D _)) as (_ & _ & _ & H4).
    exact (H4 eq_refl (IInt 5) eq_refl).
  - destruct (thm ("1" ++ crlf ++ "0")
                (set_contentLength (Some (IInt 5)) (get_x_fields JNull))) as [H _].
    destruct (H eq_refl eq_refl (D _)) as (H1 & _).
    exact (H1 eq_refl).
  - destruct (thm "" blank) as (_ & H & _).
    destruct (H "12" " bytes" eq_refl N eq_refl) as [H1 _].
    apply H1. vm_compute. reflexivity.
  - destruct (thm "" blank) as (_ & _ & H).
    now rewrite (H eq_refl eq_refl eq_refl).
Defined.

(** C4 as the specification words it fails: the header content-length: -5 is
    accepted and leaves a negative [contentLength]; and a later
    content-length header is not always ignored: one whose value is no legal
    header value is refused with an error. *)
Lemma content_length_negative_counterexample :
  addHeader sample_env "Content-Length" (HScalar (SStr "-5")) (get_x_fields JNull)
  = (set_contentLength (Some (IInt (-5))) (get_x_fields JNull), [], Ok tt) /\
  -5 < 0 /\
  result_of
    (processHeaders sample_env
       (HdrArray [ ("Content-Length", HScalar (SStr "5"));
                   ("Content-Length", HScalar (SStr ("1" ++ crlf ++ "0"))) ] None)
       (get_x_fields JNull))
  = Throw (InvalidArgumentError "Invalid Content-Length header.").
Proof. repeat split. Qed.

(* ------------------------------------------------------------------------- *)
(** ** The request for GET /x *)

(** C8, as the code has it: for path "/x", method "GET", no body and no
    headers, validation passes and the constructor assigns idempotent = true,
    blocking = true (GET is not HEAD) and body = null. *)
Theorem get_request_defaults (env : Env) (origin : jsval) :
  invalidPathRegex_test env "/x" = false ->
  result_of (constructor_fields env origin get_x blank) = Ok tt /\
  idempotent (state_of (constructor_fields env origin get_x blank)) = JBool true /\
  blocking (state_of (constructor_fields env origin get_x blank)) = JBool true /\
  body (state_of (constructor_fields env origin get_x blank)) = BNull.
Proof.
  intros P.
  change get_x with (with_headers get_x HdrAbsent).
  rewrite (constructor_fields_get_x env origin HdrAbsent P).
  repeat split.
Qed.

(** The same with the sample environment. *)
Lemma get_request_defaults_witness :
  result_of (constructor_fields sample_env (JStr "http://localhost") get_x blank)
  = Ok tt /\
  blocking (state_of (constructor_fields sample_env (JStr "http://localhost") get_x blank))
  = JBool true.
Proof.
  destruct (get_request_defaults sample_env (JStr "http://localhost") eq_refl)
    as (H1 & _ & H2 & _).
  split; assumption.
Defined.

(** C8 as the specification words it fails: [blocking] is true, not false,
    and the constructor does not return. *)
Lemma get_request_blocking_counterexample :
  blocking (state_of (constructor_fields sample_env (JStr "http://localhost") get_x blank))
  = JBool true /\
  Request_new sample_env (JStr "http://localhost") get_x quiet_handler
  = ([], Throw (TypeError "this.assertRequestHandler is not a function")).
Proof. split; reflexivity. Qed.

(* ------------------------------------------------------------------------- *)
(** ** Forbidden headers *)

Lemma result_of_bind {A B} (m : M A) (k : A -> M B) (r : Request) :
  result_of (bind m k r)
  = match result_of (m r) with
    | Ok a => result_of (k a (state_of (m r)))
    | Throw e => Throw e
    end.
Proof.
  unfold bind, result_of, state_of.
  destruct (m r) as [[r1 ev1] [a|e]]; cbn; [|reflexivity].
  now destruct (k a r1) as [[r2 ev2] res].
Qed.

(** A computation whose continuation always throws, throws. *)
Lemma bind_tail_throws {A B} (m : M A) (k : A -> M B) (r : Request) :
  (forall a r1, exists e, result_of (k a r1) = Throw e) ->
  exists e, result_of (bind m k r) = Throw e.
Proof.
  intros H. rewrite result_of_bind.
  destruct (result_of (m r)) as [a|e]; [apply H | now exists e].
Qed.

Lemma framing_header_cases (n : string) :
  framing_header n = true ->
  n = "transfer-encoding" \/ n = "keep-alive" \/ n = "upgrade".
Proof.
  unfold framing_header. intros H.
  apply orb_true_iff in H as [H|H]; [apply orb_true_iff in H as [H|H]|];
    apply String.eqb_eq in H; auto.
Qed.

(** [assignHeader] under a framing name throws, whatever the value. *)
Lemma assignHeader_framing (n : string) (value : nvalue) (key : string) (r : Request) :
  framing_header n = true ->
  assignHeader n value key r
  = (r, [], Throw (InvalidArgumentError ("Invalid " ++ n ++ " header."))).
Proof.
  intros H.
  destruct (framing_header_cases n H) as [-> | [-> | ->]]; reflexivity.
Qed.

Lemma assignHeader_expect (value : nvalue) (key : string) (r : Request) :
  assignHeader "expect" value key r
  = (r, [], Throw (NotSupportedError "Expect header not supported.")).
Proof. reflexivity. Qed.

(** A defined value under a framing name: [addHeader] throws an
    InvalidArgumentError and leaves the request alone. *)
Lemma addHeader_framing (env : Env) (key : string) (value : hvalue) (r : Request) :
  value <> HScalar SUndefined ->
  framing_header (canonical_name env key) = true ->
  state_of (addHeader env key value r) = r /\
  exists msg, result_of (addHeader env key value r) = Throw (InvalidArgumentError msg).
Proof.
  intros D F. unfold addHeader.
  destruct value as [[ | |s|s]|vs]; try congruence;
    destruct (negb _ && negb _);
    try destruct (negb (isValidHeaderValue s));
    rewrite ?(assignHeader_framing _ _ key r F);
    split; try reflexivity; eexists; reflexivity.
Qed.

(** A defined value under the name expect: [addHeader] throws NotSupported,
    except for a string that is no legal header value, which the check of the
    value refuses first. *)
Lemma addHeader_expect (env : Env) (key : string) (value : hvalue) (r : Request) :
  value <> HScalar SUndefined ->
  canonical_name env key = "expect" ->
  state_of (addHeader env key value r) = r /\
  result_of (addHeader env key value r)
  = match value with
    | HScalar (SStr s) =>
        if isValidHeaderValue s
        then Throw (NotSupportedError "Expect header not supported.")
        else Throw (InvalidArgumentError ("Invalid " ++ key ++ " header."))
    | _ => Throw (NotSupportedError "Expect header not supported.")
    end.
Proof.
  intros D E. unfold addHeader. rewrite E.
  replace (isValidHTTPToken "expect") with true by reflexivity.
  rewrite andb_false_r.
  destruct value as [[ | |s|s]|vs]; try congruence;
    try destruct (isValidHeaderValue s); split; reflexivity.
Qed.

Lemma addHeader_forbidden_throws (env : Env) (key : string) (value : hvalue)
  (r : Request) :
  value <> HScalar SUndefined ->
  forbidden_header (canonical_name env key) = true ->
  exists e, result_of (addHeader env key value r) = Throw e.
Proof.
  intros D F. unfold forbidden_header in F.
  apply orb_true_iff in F as [F|F].
  - destruct (addHeader_framing env key value r D F) as [_ [msg ->]]. eauto.
  - apply String.eqb_eq in F.
    destruct (addHeader_expect env key value r D F) as [_ ->].
    destruct value as [[ | |s|s]|vs]; try destruct (isValidHeaderValue s); eauto.
Qed.

(** Header processing stops, at the latest, at a forbidden header. *)
Lemma addHeaders_forbidden_throws (env : Env) (entries : list (string * hvalue))
  (key : string) (value : hvalue) (r : Request) :
  In (key, value) entries -> value <> HScalar SUndefined ->
  forbidden_header (canonical_name env key) = true ->
  exists e, result_of (addHeaders env entries r) = Throw e.
Proof.
  intros I D F. revert r.
  induction entries as [|[k v] entries IH]; intros r; [contradiction|].
  cbn [addHeaders]. rewrite result_of_bind.
  destruct I as [I|I].
  - inversion I; subst k v.
    destruct (addHeader_forbidden_throws env key value r D F) as [e ->]. eauto.
  - destruct (result_of (addHeader env k v r)); [now apply IH | eauto].
Qed.

Lemma processHeaders_forbidden_throws (env : Env) (h : headersArg)
  (key : string) (value : hvalue) (r : Request) :
  In (key, value) (header_entries h) -> value <> HScalar SUndefined ->
  forbidden_header (canonical_name env key) = true ->
  exists e, result_of (processHeaders env h r) = Throw e.
Proof.
  intros I D F.
  destruct h as [ | pairs [x|] | entries| ]; cbn in I; try contradiction;
    now apply (addHeaders_forbidden_throws env _ key value).
Qed.

Lemma constructor_fields_forbidden_throws (env : Env) (origin : jsval) (o : options)
  (key : string) (value : hvalue) :
  In (key, value) (header_entries (o_headers o)) -> value <> HScalar SUndefined ->
  forbidden_header (canonical_name env key) = true ->
  exists e, result_of (constructor_fields env origin o blank) = Throw e.
Proof.
  intros I D F. unfold constructor_fields.
  repeat (apply bind_tail_throws; intros).
  now apply (processHeaders_forbidden_throws env _ key value).
Qed.

(** The constructor passes on what lines 8 to 27 throw. *)
Lemma Request_new_fields_throw (env : Env) (origin : jsval) (o : options)
  (h : Handler) (e : error) :
  result_of (constructor_fields env origin o blank) = Throw e ->
  snd (Request_new env origin o h) = Throw e.
Proof.
  unfold Request_new, constructor, result_of. unfold bind at 1.
  destruct (constructor_fields env origin o blank) as [[r evs] res]; cbn [snd].
  now intros ->.
Qed.

(** C6, as the code has it: a header with a defined value whose canonical
    name is transfer-encoding, keep-alive or upgrade is refused with an
    InvalidArgumentError; one whose canonical name is expect is refused with
    NotSupported, unless the value is a string that is no legal header value,
    which the check of the value refuses first with an InvalidArgumentError;
    the request is left as it was; and the construction of a request with
    such a header fails with an error of its header processing. *)
Theorem forbidden_headers_fail (env : Env) (origin : jsval) (o : options)
  (key : string) (value : hvalue) (r : Request) :
  value <> HScalar SUndefined ->
  (framing_header (canonical_name env key) = true ->
     state_of (addHeader env key value r) = r /\
     exists msg, result_of (addHeader env key value r)
                 = Throw (InvalidArgumentError msg)) /\
  (canonical_name env key = "expect" ->
     state_of (addHeader env key value r) = r /\
     result_of (addHeader env key value r)
     = match value with
       | HScalar (SStr s) =>
           if isValidHeaderValue s
           then Throw (NotSupportedError "Expect header not supported.")
           else Throw (InvalidArgumentError ("Invalid " ++ key ++ " header."))
       | _ => Throw (NotSupportedError "Expect header not supported.")
       end) /\
  (forbidden_header (canonical_name env key) = true ->
   In (key, value) (header_entries (o_headers o)) ->
   exists e, result_of (constructor_fields env origin o blank) = Throw e /\
             forall h, snd (Request_new env origin o h) = Throw e).
Proof.
  intros D. split; [|split].
  - now apply addHeader_framing.
  - now apply addHeader_expect.
  - intros F I.
    destruct (constructor_fields_forbidden_throws env origin o key value I D F)
      as [e E].
    exists e. split; [exact E|]. intros h. now apply Request_new_fields_throw.
Qed.

(** [Upgrade: null] and [Expect: 100-continue], the second also as the only
    header of a request. *)
Lemma forbidden_headers_fail_witness :
  result_of (addHeader sample_env "Upgrade" (HScalar SNull) (get_x_fields JNull))
  = Throw (InvalidArgumentError "Invalid upgrade header.") /\
  result_of (addHeader sample_env "Expect" (HScalar (SStr "100-continue"))
               (get_x_fields JNull))
  = Throw (NotSupportedError "Expect header not supported.") /\
  Request_new sample_env JNull
    (with_headers get_x (HdrObject [("Expect", HScalar (SStr "100-continue"))]))
    quiet_handler
  = ([], Throw (NotSupportedError "Expect header not supported.")).
Proof.
  assert (D0 : HScalar SNull <> HScalar SUndefined) by discriminate.
  assert (D1 : HScalar (SStr "100-continue") <> HScalar SUndefined) by discriminate.
  destruct (forbidden_headers_fail sample_env JNull get_x "Upgrade"
              (HScalar SNull) (get_x_fields JNull) D0) as (H1 & _ & _).
  destruct (forbidden_headers_fail sample_env JNull
              (with_headers get_x (HdrObject [("Expect", HScalar (SStr "100-continue"))]))
              "Expect" (HScalar (SStr "100-continue")) (get_x_fields JNull) D1)
    as (_ & H2 & H3).
  destruct (H1 eq_refl) as [_ [msg Hmsg]].
  destruct (H2 eq_refl) as [_ He].
  destruct (H3 eq_refl (or_introl eq_refl)) as [e [_ Hnew]].
  split; [reflexivity|]. split; [exact He|]. reflexivity.
Defined.

(** C6 as the specification words it fails: under the name expect a value
    with a CR LF is refused with an InvalidArgumentError, not with
    NotSupported, and a value [undefined] is not refused at all. *)
Lemma expect_any_value_counterexample :
  addHeader sample_env "Expect" (HScalar (SStr injected)) (get_x_fields JNull)
  = (get_x_fields JNull, [], Throw (InvalidArgumentError "Invalid Expect header.")) /\
  addHeader sample_env "Expect" (HScalar SUndefined) (get_x_fields JNull)
  = (get_x_fields JNull, [], Ok tt) /\
  addHeader sample_env "Transfer-Encoding" (HScalar SUndefined) (get_x_fields JNull)
  = (get_x_fields JNull, [], Ok tt).
Proof. repeat split. Qed.

(* ------------------------------------------------------------------------- *)
(** ** The path and the query *)

(** What [serializePathWithQuery] of util.js does with an object. *)
Lemma serializePathWithQuery_object (url stringified : string) :
  serializePathWithQuery url (QObject stringified)
  = if includes_char url "?" || includes_char url "#"
    then inr (PlainError ("Query params cannot be passed when URL already contains "
                            ++ dquote ++ "?" ++ dquote ++ "."))
    else inl (if str_truthy stringified then url ++ "?" ++ stringified else url).
Proof. reflexivity. Qed.

(** The constructor does not call that function: with a truthy query it
    calls [this.serializePathWithQuery], which is no member, and throws a
    TypeError unless validation or the body has thrown before. *)
Lemma constructor_fields_query (env : Env) (origin : jsval) (o : options) :
  query_truthy (o_query o) = true ->
  exists e, result_of (constructor_fields env origin o blank) = Throw e.
Proof.
  intros Q. unfold constructor_fields.
  do 9 (apply bind_tail_throws; intros).
  rewrite result_of_bind, Q. cbn. eauto.
Qed.

(** No call of the constructor returns: when lines 8 to 27 succeed, line 28
    calls [this.assertRequestHandler], which is no member. *)
Lemma constructor_never_returns (env : Env) (origin : jsval) (o : options)
  (h : Handler) :
  exists e, snd (Request_new env origin o h) = Throw e.
Proof.
  unfold Request_new, constructor, bind, call_undefined_member, throw.
  destruct (constructor_fields env origin o blank) as [[r evs] [[]|e]]; cbn; eauto.
Qed.

(** C10 on the code: path "/x" and query { a: 1 }, which stringifies to
    "a=1".  The function of util.js answers "/x?a=1"; the constructor throws
    a TypeError instead. *)
Theorem query_construction_throws :
  serializePathWithQuery "/x" (QObject "a=1") = inl "/x?a=1" /\
  Request_new sample_env (JStr "http://localhost")
    (with_query get_x (JStr "/x") (QObject "a=1")) quiet_handler
  = ([], Throw (TypeError "this.serializePathWithQuery is not a function")).
Proof. split; reflexivity. Qed.

(* ------------------------------------------------------------------------- *)
(** ** Small cases *)

Example parseInt_5 : parseInt10 "5" = Some 5.
Proof. reflexivity. Qed.

Example parseInt_signed_prefix : parseInt10 "  -12px" = Some (-12).
Proof. reflexivity. Qed.

Example parseInt_nan : parseInt10 "abc" = None.
Proof. reflexivity. Qed.

Example toLowerCase_name : toLowerCase "Content-LENGTH" = "content-length".
Proof. reflexivity. Qed.

(** [isTokenCharCode] as written refuses the hyphen and the upper-case
    letters, so a name with a hyphen passes [addHeader] only through the
    lookup table. *)
Example token_hyphen : isValidHTTPToken "x-test" = false /\ isValidHTTPToken "accept" = true.
Proof. split; reflexivity. Qed.

Example sample_table_lowercases : lowercasing_table sample_table = true.
Proof. reflexivity. Qed.

(* ------------------------------------------------------------------------- *)
(** ** Tokens *)

Lemma isTokenCharCode_listed (c : Z) : isTokenCharCode c = token_code c.
Proof.
  apply Bool.eq_true_iff_eq.
  unfold isTokenCharCode, token_code, in_range.
  rewrite negb_true_iff.
  repeat rewrite ?orb_false_iff, ?orb_true_iff, ?andb_false_iff, ?andb_true_iff.
  rewrite ?Z.eqb_eq, ?Z.eqb_neq, ?Z.leb_le, ?Z.leb_gt, ?Z.ltb_ge, ?Z.gtb_ltb, ?Z.ltb_ge.
  lia.
Qed.

Lemma every_ext (p q : ascii -> bool) (s : string) :
  (forall c, p c = q c) -> every p s = every q s.
Proof.
  intros H; induction s as [|c s IH]; cbn; [reflexivity|]. now rewrite H, IH.
Qed.

Lemma every_includes (p : ascii -> bool) (s : string) (c : ascii) :
  every p s = true -> includes_char s c = true -> p c = true.
Proof.
  induction s as [|d s IH]; cbn; [discriminate|].
  intros E I. apply andb_true_iff in E as [Ed Es].
  apply orb_true_iff in I as [I|I]; [|now apply IH].
  apply Ascii.eqb_eq in I. now subst d.
Qed.

Lemma isValidHTTPToken_listed (s : string) :
  isValidHTTPToken s = true <->
  s <> "" /\ every (fun c => token_code (code c)) s = true.
Proof.
  unfold isValidHTTPToken.
  rewrite (every_ext _ (fun c => token_code (code c)))
    by (intros c; apply isTokenCharCode_listed).
  rewrite andb_true_iff. destruct s as [|c s]; cbn [String.length].
  - split; [intros [H _]; discriminate | intros [H _]; congruence].
  - split; intros [_ H]; (split; [|exact H]); [discriminate | reflexivity].
Qed.

Lemma isValidHTTPToken_refuses (s : string) (c : ascii) :
  includes_char s c = true ->
  (in_range 65 90 (code c) || (code c =? 45) || (code c =? 46) || (code c =? 124)) = true ->
  isValidHTTPToken s = false.
Proof.
  intros I U. destruct (isValidHTTPToken s) eqn:V; [|reflexivity].
  destruct (proj1 (isValidHTTPToken_listed s) V) as [_ W].
  pose proof (every_includes _ s c W I) as T. cbn beta in T.
  unfold token_code, in_range in *.
  repeat rewrite ?orb_true_iff, ?andb_true_iff in *.
  rewrite ?Z.eqb_eq, ?Z.leb_le in *. lia.
Qed.

(** X1: [isValidHTTPToken] accepts exactly the non-empty strings over
    ! # $ % & ' * + 0-9 ? ^ _ ` a-z ~ and so refuses every string that holds
    an upper-case letter, a hyphen, a dot or a vertical bar. *)
Theorem isValidHTTPToken_alphabet (s : string) :
  (isValidHTTPToken s = true <->
   s <> "" /\ every (fun c => token_code (code c)) s = true) /\
  (forall c, includes_char s c = true ->
     (in_range 65 90 (code c) || (code c =? 45) || (code c =? 46) || (code c =? 124)) = true ->
     isValidHTTPToken s = false).
Proof.
  split.
  - apply isValidHTTPToken_listed.
  - intros c I U. now apply (isValidHTTPToken_refuses s c).
Qed.

(** The strings "x-test" and "Accept" are no tokens; "accept" is one. *)
Lemma isValidHTTPToken_alphabet_witness :
  isValidHTTPToken "x-test" = false /\ isValidHTTPToken "Accept" = false /\
  isValidHTTPToken "accept" = true.
Proof.
  split; [|split].
  - exact (proj2 (isValidHTTPToken_alphabet "x-test") "-"%char eq_refl eq_refl).
  - exact (proj2 (isValidHTTPToken_alphabet "Accept") "A"%char eq_refl eq_refl).
  - apply (proj1 (isValidHTTPToken_alphabet "accept")). split; [discriminate|reflexivity].
Defined.

(* ------------------------------------------------------------------------- *)
(** ** What header processing touches *)

Lemma state_of_bind {A B} (m : M A) (k : A -> M B) (r : Request) :
  state_of (bind m k r)
  = match result_of (m r) with
    | Ok a => state_of (k a (state_of (m r)))
    | Throw _ => state_of (m r)
    end.
Proof.
  unfold bind, result_of, state_of.
  destruct (m r) as [[r1 ev1] [a|e]]; cbn; [|reflexivity].
  now destruct (k a r1) as [[r2 ev2] res].
Qed.

Lemma events_of_bind {A B} (m : M A) (k : A -> M B) (r : Request) :
  events_of (bind m k r)
  = match result_of (m r) with
    | Ok a => (events_of (m r) ++ events_of (k a (state_of (m r))))%list
    | Throw _ => events_of (m r)
    end.
Proof.
  unfold bind, result_of, state_of, events_of.
  destruct (m r) as [[r1 ev1] [a|e]]; cbn; [|reflexivity].
  now destruct (k a r1) as [[r2 ev2] res].
Qed.

Ltac name_cases :=
  repeat match goal with
    | |- context [String.eqb ?a ?b] => destruct (String.eqb a b) eqn:?
    | |- context [parseInt10_number ?s] => destruct (parseInt10_number s) eqn:?
    end.

Ltac unfold_header :=
  cbv [bind ret get modify emit when throw state_of events_of result_of
       fst snd app] in *.

Lemma headers_settled_refl (r : Request) : headers_settled r r.
Proof. repeat split; auto. Qed.

Lemma headers_settled_trans (a b c : Request) :
  headers_settled a b -> headers_settled b c -> headers_settled a c.
Proof.
  intros (H1 & H2 & H3 & H4) (K1 & K2 & K3 & K4). repeat split; auto.
Qed.

(** [assignHeader] writes to [host], [contentLength], [contentType], [reset]
    and the header table only, calls nothing, and writes to none of the first
    three once it is set. *)
Lemma assignHeader_frame (n : string) (v : nvalue) (k : string) (r : Request) :
  outside_headers (state_of (assignHeader n v k r)) = outside_headers r /\
  events_of (assignHeader n v k r) = [] /\
  headers_settled r (state_of (assignHeader n v k r)).
Proof.
  destruct r. unfold assignHeader, headers_settled, outside_headers.
  cbn [orb]. name_cases; cbn [orb]; unfold_header; cbn;
    repeat match goal with
      | |- context [match ?x with _ => _ end] => is_var x; destruct x
      end; cbn; name_cases; cbn; repeat split; auto; try discriminate.
Qed.

Lemma addHeader_frame (env : Env) (k : string) (v : hvalue) (r : Request) :
  outside_headers (state_of (addHeader env k v r)) = outside_headers r /\
  events_of (addHeader env k v r) = [] /\
  headers_settled r (state_of (addHeader env k v r)).
Proof.
  unfold addHeader.
  destruct v as [[ | |s|s]|vs];
    try (split; [reflexivity | split; [reflexivity | apply headers_settled_refl]]);
    destruct (negb _ && negb _);
    try destruct (negb (isValidHeaderValue s));
    try apply assignHeader_frame;
    (split; [reflexivity | split; [reflexivity | apply headers_settled_refl]]).
Qed.

Lemma addHeaders_frame (env : Env) (l : list (string * hvalue)) (r : Request) :
  outside_headers (state_of (addHeaders env l r)) = outside_headers r /\
  events_of (addHeaders env l r) = [] /\
  headers_settled r (state_of (addHeaders env l r)).
Proof.
  revert r; induction l as [|[k v] l IH]; intros r.
  - split; [reflexivity | split; [reflexivity | apply headers_settled_refl]].
  - cbn [addHeaders]. rewrite state_of_bind, events_of_bind.
    destruct (addHeader_frame env k v r) as (F & E & S).
    destruct (result_of (addHeader env k v r));
      [|split; [exact F | split; [exact E | exact S]]].
    destruct (IH (state_of (addHeader env k v r))) as (F' & E' & S').
    split; [congruence|]. split; [now rewrite E, E'|].
    exact (headers_settled_trans _ _ _ S S').
Qed.

Lemma processHeaders_outside (env : Env) (h : headersArg) (r : Request) :
  outside_headers (state_of (processHeaders env h r)) = outside_headers r /\
  events_of (processHeaders env h r) = [].
Proof.
  destruct h as [ | pairs [x|] | entries | ]; cbn [processHeaders];
    try (split; reflexivity).
  - destruct (addHeaders_frame env pairs r) as (F & E & _); eauto.
  - destruct (addHeaders_frame env entries r) as (F & E & _); eauto.
Qed.

(** X9: Header processing, whether it ends well or throws, leaves the lifecycle
    flags, the body, the handler, the abort capability, the deferred error,
    the stream listeners and the other construction fields as they were, and
    calls nothing outside the request. *)
Theorem processHeaders_frame (env : Env) (h : headersArg) (r : Request) :
  outside_headers (state_of (processHeaders env h r)) = outside_headers r /\
  events_of (processHeaders env h r) = [].
Proof.
  destruct h as [ | pairs [x|] | entries | ]; cbn [processHeaders];
    try (split; reflexivity).
  - destruct (addHeaders_frame env pairs r) as (F & E & _). now split.
  - destruct (addHeaders_frame env entries r) as (F & E & _). now split.
Qed.

(** X10: A host, a content length or a content type that the request has is the
    one it has after any further header processing, and a reset that is on
    stays on: later headers never replace them. *)
Theorem processHeaders_single_assignment (env : Env) (h : headersArg) (r : Request) :
  headers_settled r (state_of (processHeaders env h r)).
Proof.
  destruct h as [ | pairs [x|] | entries | ]; cbn [processHeaders];
    try apply headers_settled_refl; apply addHeaders_frame.
Qed.

(** A request that has a host keeps it through a second host header. *)
Lemma processHeaders_single_assignment_witness :
  host (state_of (processHeaders sample_env
                    (HdrObject [("Host", HScalar (SStr "b.example"))])
                    (set_host (Some "a.example") (get_x_fields JNull))))
  = Some "a.example".
Proof.
  exact (proj1 (processHeaders_single_assignment sample_env
                  (HdrObject [("Host", HScalar (SStr "b.example"))])
                  (set_host (Some "a.example") (get_x_fields JNull)))
           "a.example" eq_refl).
Defined.

(* ------------------------------------------------------------------------- *)
(** ** Lists of headers *)

Lemma bind_ret_l {A B} (a : A) (k : A -> M B) (r : Request) :
  bind (ret a) k r = k a r.
Proof. unfold bind, ret. now destruct (k a r) as [[r2 ev2] res]. Qed.

Lemma bind_ext {A B} (m : M A) (k k' : A -> M B) (r : Request) :
  (forall a r1, k a r1 = k' a r1) -> bind m k r = bind m k' r.
Proof.
  intros H. unfold bind. destruct (m r) as [[r1 ev1] [a|e]]; [|reflexivity].
  now rewrite H.
Qed.

Lemma bind_assoc {A B C} (m : M A) (k : A -> M B) (j : B -> M C) (r : Request) :
  bind (bind m k) j r = bind m (fun a => bind (k a) j) r.
Proof.
  unfold bind. destruct (m r) as [[r1 ev1] [a|e]]; [|reflexivity].
  destruct (k a r1) as [[r2 ev2] [b|e]]; [|reflexivity].
  destruct (j b r2) as [[r3 ev3] res]. now rewrite app_assoc.
Qed.

(** X12: Entries whose value is [undefined] count for nothing, whatever their
    name: header processing with and without them is the same. *)
Theorem addHeaders_skips_undefined (env : Env) (l : list (string * hvalue))
  (r : Request) :
  addHeaders env (filter defined_value l) r = addHeaders env l r.
Proof.
  revert r; induction l as [|[k v] l IH]; intros r; [reflexivity|].
  cbn [filter addHeaders]. unfold defined_value at 1. cbn [snd].
  destruct v as [[ | |s|s]|vs]; cbn [addHeaders];
    try (apply bind_ext; intros _ r1; apply IH).
  change (addHeader env k (HScalar SUndefined)) with (ret tt : M unit).
  now rewrite bind_ret_l.
Qed.

(* ------------------------------------------------------------------------- *)
(** ** Header names the table does not know *)

Lemma toLowerCase_keeps_hyphen (s : string) :
  includes_char s "-" = true -> includes_char (toLowerCase s) "-" = true.
Proof.
  induction s as [|c s IH]; cbn; [discriminate|].
  intros H. apply orb_true_iff in H as [H|H].
  - apply Ascii.eqb_eq in H; subst c. reflexivity.
  - rewrite (IH H). apply orb_true_r.
Qed.

(** X2: A header with a defined value whose name fails the key check is refused
    with "Invalid header key." and the request is left alone.  With a table
    that lower-cases, this is the lot of every name with a hyphen that the
    table does not list. *)
Theorem addHeader_unknown_key (env : Env) (key : string) (value : hvalue)
  (r : Request) :
  value <> HScalar SUndefined ->
  (key_accepted env key = false ->
   addHeader env key value r
   = (r, [], Throw (InvalidArgumentError "Invalid header key."))) /\
  (lowercasing_table (headerNameLowerCasedRecord env) = true ->
   includes_char key "-" = true ->
   record_has (headerNameLowerCasedRecord env) (toLowerCase key) = false ->
   addHeader env key value r
   = (r, [], Throw (InvalidArgumentError "Invalid header key."))).
Proof.
  intros D.
  assert (K : key_accepted env key = false ->
              addHeader env key value r
              = (r, [], Throw (InvalidArgumentError "Invalid header key."))).
  { unfold key_accepted, addHeader. intros K.
    apply orb_false_iff in K as [-> ->]. cbn [negb andb].
    destruct value as [[ | |s|s]|vs]; try congruence; reflexivity. }
  split; [exact K|].
  intros L H T. apply K. unfold key_accepted.
  rewrite (canonical_name_lowercasing env key L), T. cbn [orb].
  exact (isValidHTTPToken_refuses (toLowerCase key) "-"%char
           (toLowerCase_keeps_hyphen key H) eq_refl).
Qed.

(** [X-Request-Id: 7] with the sample table, which does not list the name. *)
Lemma addHeader_unknown_key_witness :
  addHeader sample_env "X-Request-Id" (HScalar (SStr "7")) (get_x_fields JNull)
  = (get_x_fields JNull, [], Throw (InvalidArgumentError "Invalid header key.")).
Proof.
  assert (D : HScalar (SStr "7") <> HScalar SUndefined) by discriminate.
  exact (proj2 (addHeader_unknown_key sample_env "X-Request-Id" (HScalar (SStr "7"))
                  (get_x_fields JNull) D) eq_refl eq_refl eq_refl).
Defined.

(* ------------------------------------------------------------------------- *)
(** ** The header table *)

Lemma map_get_set (m : list (string * nvalue)) (k k' : string) (v : nvalue) :
  map_get (map_set m k v) k' = if String.eqb k k' then Some v else map_get m k'.
Proof.
  induction m as [|[a b] m IH]; cbn.
  - reflexivity.
  - destruct (String.eqb_spec a k) as [->|N]; cbn.
    + now destruct (String.eqb k k').
    + rewrite IH. destruct (String.eqb_spec k k') as [<-|N']; [|reflexivity].
      now rewrite (proj2 (String.eqb_neq a k) N).
Qed.

Lemma map_set_keys (m : list (string * nvalue)) (k : string) (v : nvalue) :
  map fst (map_set m k v)
  = if existsb (fun a => String.eqb a k) (map fst m)
    then map fst m else (map fst m ++ [k])%list.
Proof.
  induction m as [|[a b] m IH]; cbn; [reflexivity|].
  destruct (String.eqb_spec a k) as [->|N]; cbn; [reflexivity|].
  rewrite IH. now destruct (existsb _ (map fst m)).
Qed.

(** The header table is a map that keeps the order of insertion: a written
    key reads back what was written, the other keys read as before, a key
    that was there keeps its place and a new key goes to the end. *)
Theorem header_table_set (m : list (string * nvalue)) (k k' : string) (v : nvalue) :
  map_get (map_set m k v) k = Some v /\
  (k <> k' -> map_get (map_set m k v) k' = map_get m k') /\
  map fst (map_set m k v)
  = (if existsb (fun a => String.eqb a k) (map fst m)
     then map fst m else (map fst m ++ [k])%list).
Proof.
  split; [|split].
  - now rewrite map_get_set, String.eqb_refl.
  - intros N. rewrite map_get_set. now rewrite (proj2 (String.eqb_neq k k') N).
  - apply map_set_keys.
Qed.

Lemma header_table_set_witness :
  map_get (map_set [("a", NStr "1"); ("b", NStr "2")] "a" (NStr "3")) "b"
  = Some (NStr "2") /\
  map fst (map_set [("a", NStr "1"); ("b", NStr "2")] "a" (NStr "3")) = ["a"; "b"].
Proof.
  destruct (header_table_set [("a", NStr "1"); ("b", NStr "2")] "a" "b" (NStr "3"))
    as (_ & H & K).
  split; [apply H; discriminate | exact K].
Defined.

(** X5: Which headers reach the table: those under a name that [assignHeader]
    has no case for, and the first content-type; no host, content-length or
    connection header ever does. *)
Theorem header_table_writes (n : string) (v : nvalue) (k : string) (r : Request) :
  priv_headers (state_of (assignHeader n v k r))
  = if negb (special_header n)
       || (String.eqb n "content-type"
           && match contentType r with None => true | Some _ => false end)
    then map_set (priv_headers r) k v
    else priv_headers r.
Proof.
  destruct r. unfold assignHeader, special_header, forbidden_header, framing_header.
  name_cases; cbn [orb andb negb];
    repeat match goal with
      | H : String.eqb ?a ?b = true |- _ => apply String.eqb_eq in H; subst
      end; try discriminate;
    unfold_header; cbn;
    repeat match goal with
      | |- context [match ?x with _ => _ end] => is_var x; destruct x
      end; cbn; name_cases; reflexivity.
Qed.

(** X4: A header under a name with no case of its own, with a key that passes
    the key check and a value that passes the value check, is stored under
    its original key, as its normalised value. *)
Theorem addHeader_stores (env : Env) (key : string) (value : hvalue) (r : Request) :
  value <> HScalar SUndefined ->
  key_accepted env key = true -> value_accepted value = true ->
  special_header (canonical_name env key) = false ->
  addHeader env key value r
  = (set_priv_headers (map_set (priv_headers r) key (normalised value)) r, [], Ok tt) /\
  map_get (priv_headers (state_of (addHeader env key value r))) key
  = Some (normalised value).
Proof.
  intros D K V S.
  assert (E : addHeader env key value r
              = (set_priv_headers (map_set (priv_headers r) key (normalised value)) r,
                 [], Ok tt)).
  { assert (A : forall v, assignHeader (canonical_name env key) v key r
                          = (set_priv_headers (map_set (priv_headers r) key v) r, [], Ok tt)).
    { intros v. unfold special_header, forbidden_header, framing_header in S.
      repeat match goal with
        | H : _ || _ = false |- _ => apply orb_false_iff in H as [? ?]
        end.
      unfold assignHeader.
      repeat match goal with H : String.eqb _ _ = false |- _ => rewrite H; clear H end.
      reflexivity. }
    destruct value as [[ | |s|s]|vs]; try congruence.
    - unfold addHeader. unfold key_accepted in K. apply orb_true_iff in K.
      replace (negb _ && negb _) with false
        by (destruct K as [-> | ->]; cbn; now rewrite ?andb_false_r).
      apply A.
    - unfold addHeader. unfold key_accepted in K. apply orb_true_iff in K.
      replace (negb _ && negb _) with false
        by (destruct K as [-> | ->]; cbn; now rewrite ?andb_false_r).
      cbn in V. rewrite V. apply A.
    - unfold addHeader. unfold key_accepted in K. apply orb_true_iff in K.
      replace (negb _ && negb _) with false
        by (destruct K as [-> | ->]; cbn; now rewrite ?andb_false_r).
      apply A.
    - rewrite (addHeader_array_unchecked env key vs r K). apply A. }
  split; [exact E|].
  rewrite E. cbn. now rewrite map_get_set, String.eqb_refl.
Qed.

(** [accept: text/html] on the request for GET /x. *)
Lemma addHeader_stores_witness :
  map_get (priv_headers (state_of (addHeader sample_env "accept"
                                     (HScalar (SStr "text/html"))
                                     (get_x_fields JNull)))) "accept"
  = Some (NStr "text/html").
Proof.
  assert (D : HScalar (SStr "text/html") <> HScalar SUndefined) by discriminate.
  exact (proj2 (addHeader_stores sample_env "accept" (HScalar (SStr "text/html"))
                  (get_x_fields JNull) D eq_refl eq_refl eq_refl)).
Defined.

(* ------------------------------------------------------------------------- *)
(** ** Validation of the options *)

Lemma checkTimeoutValidity_spec (value : jsval) (name : string) (r : Request) :
  checkTimeoutValidity value name r
  = (r, [], if timeout_ok value then Ok tt
            else Throw (InvalidArgumentError ("Invalid " ++ name ++ "."))).
Proof.
  unfold checkTimeoutValidity, timeout_ok.
  destruct value as [ | |b|[ |neg|q]|s| ]; cbn; try reflexivity.
  now destruct (Qle_bool 0 q).
Qed.

Lemma checks_guard (c : bool) (msg : string) :
  checks (if c then throw (InvalidArgumentError msg) else ret tt) (negb c).
Proof. intros r. exists msg. now destruct c. Qed.

Lemma checks_else (c : bool) (msg : string) (k : M unit) (b : bool) :
  checks k b -> checks (if c then throw (InvalidArgumentError msg) else k) (negb c && b).
Proof.
  intros K r. destruct c; cbn; [now exists msg | apply K].
Qed.

Lemma checks_bind (m k : M unit) (a b : bool) :
  checks m a -> checks k b -> checks (bind m (fun _ => k)) (a && b).
Proof.
  intros Hm Hk r. destruct (Hm r) as [msg E]. unfold bind. rewrite E.
  destruct a; cbn; [|now exists msg].
  destruct (Hk r) as [msg' E']. rewrite E'. now exists msg'.
Qed.

Lemma checks_eq (m : M unit) (a b : bool) : a = b -> checks m a -> checks m b.
Proof. now intros ->. Qed.

Lemma checkTimeoutValidity_checks (value : jsval) (name : string) :
  checks (checkTimeoutValidity value name) (timeout_ok value).
Proof.
  intros r. rewrite checkTimeoutValidity_spec. eauto.
Qed.

Lemma validateInputs_checks (env : Env) (o : options) :
  checks (validateInputs env o) (inputs_ok env o).
Proof.
  unfold validateInputs, inputs_ok, checkBooleanValidation, checkUndefined.
  destruct (o_path o) as [ | |b|n|p| ];
    try (intros r; eexists; reflexivity).
  eapply checks_eq;
    [|apply checks_else, checks_else, checks_else, checks_else;
      apply checks_bind; [apply checkTimeoutValidity_checks|];
      apply checks_bind; [apply checkTimeoutValidity_checks|];
      apply checks_bind; [apply checks_guard|];
      apply checks_bind; [apply checks_guard|];
      apply checks_guard].
  unfold jsval_is.
  destruct (o_method o) as [ | |b|n|m| ]; cbn [negb];
    rewrite ?andb_true_r, ?andb_false_r, ?andb_false_l; try reflexivity.
  rewrite !negb_andb, !negb_involutive.
  destruct (startsWith p "/"), (startsWith p "http://"), (startsWith p "https://"),
    (String.eqb m "CONNECT"); cbn [negb andb orb]; try reflexivity;
    now rewrite !andb_assoc.
Qed.

(** X13: [validateInputs] reads the options only: it leaves the request alone and
    calls nothing; it returns for exactly the options of [inputs_ok] (a
    string path that starts as required and passes the pattern, a known
    method or a token, an upgrade that is falsy or a string, timeouts that
    are absent or finite and not negative, a reset and an expectContinue that
    are absent or boolean, no throwOnError) and throws an
    InvalidArgumentError for all others. *)
Theorem validateInputs_accepts (env : Env) (o : options) (r : Request) :
  state_of (validateInputs env o r) = r /\
  events_of (validateInputs env o r) = [] /\
  (inputs_ok env o = true -> result_of (validateInputs env o r) = Ok tt) /\
  (inputs_ok env o = false ->
   exists msg, result_of (validateInputs env o r) = Throw (InvalidArgumentError msg)).
Proof.
  destruct (validateInputs_checks env o r) as [msg E]. rewrite E.
  cbn [state_of events_of result_of fst snd].
  split; [reflexivity|]. split; [reflexivity|].
  split; intros ->; eauto.
Qed.

(** The options for GET /x pass; a relative path and a negative timeout do
    not. *)
Lemma validateInputs_accepts_witness :
  result_of (validateInputs sample_env get_x blank) = Ok tt /\
  exists msg,
    result_of (validateInputs sample_env (with_query get_x (JStr "x") QUndefined) blank)
    = Throw (InvalidArgumentError msg).
Proof.
  destruct (validateInputs_accepts sample_env get_x blank) as (_ & _ & H & _).
  destruct (validateInputs_accepts sample_env (with_query get_x (JStr "x") QUndefined)
              blank) as (_ & _ & _ & K).
  split; [exact (H eq_refl) | exact (K eq_refl)].
Defined.

(* ------------------------------------------------------------------------- *)
(** ** The constructor *)

Lemma constructor_fields_decompose (env : Env) (origin : jsval) (o : options) :
  inputs_ok env o = true -> query_truthy (o_query o) = false ->
  o_body o <> BodyInvalid ->
  constructor_fields env origin o blank
  = match processHeaders env (o_headers o) (initial_fields origin o) with
    | (r, evs, res) => (r, (body_listeners (o_body o) ++ evs)%list, res)
    end.
Proof.
  intros V Q B. unfold constructor_fields. unfold bind at 1.
  destruct (validateInputs_checks env o blank) as [msg E]. rewrite E, V, Q.
  unfold initial_fields, body_listeners.
  destruct (o_body o) as [ |[|]|[|c s]|[|c s]| | ]; try congruence;
    cbn -[processHeaders];
    unfold bind, ret, get, modify; cbn -[processHeaders];
    now destruct (processHeaders env (o_headers o) _) as [[r evs] res].
Qed.

(** X14: For options that pass validation, carry no query and have a body of an
    accepted kind, whatever the headers do: the request has the method, path,
    origin and timeouts of the options; both lifecycle flags off; no handler,
    abort capability or deferred error; [idempotent] as given, or else true
    for GET and HEAD only; [blocking] as given, or else false for HEAD only;
    [upgrade] as given when truthy, or else [null]; an empty string or buffer
    as body gives [null], a non-empty string the bytes of its UTF-8 encoding,
    a non-empty buffer its bytes; and the only calls made are the listeners
    attached to a stream body. *)
Theorem constructor_fields_initial (env : Env) (origin : jsval) (o : options) :
  inputs_ok env o = true -> query_truthy (o_query o) = false ->
  o_body o <> BodyInvalid ->
  outside_headers (state_of (constructor_fields env origin o blank))
  = outside_headers (initial_fields origin o) /\
  events_of (constructor_fields env origin o blank) = body_listeners (o_body o).
Proof.
  intros V Q B. rewrite (constructor_fields_decompose env origin o V Q B).
  destruct (processHeaders_outside env (o_headers o) (initial_fields origin o)) as [F E].
  unfold state_of, events_of in *.
  destruct (processHeaders env (o_headers o) (initial_fields origin o)) as [[r evs] res].
  cbn [fst snd] in *. subst evs. now rewrite app_nil_r.
Qed.

(** HEAD /x with an empty string as body and a host header; and POST /x with
    the body "caf" followed by the code unit 0xE9, which makes five bytes. *)
Lemma constructor_fields_initial_witness :
  let o := with_headers
             {| o_path := JStr "/x"; o_method := JStr "HEAD"; o_upgrade := JUndefined;
                o_headersTimeout := JUndefined; o_bodyTimeout := JUndefined;
                o_reset := JUndefined; o_expectContinue := JUndefined;
                o_throwOnError := JUndefined; o_body := BodyString "";
                o_query := QUndefined; o_idempotent := JUndefined;
                o_blocking := JUndefined; o_headers := HdrAbsent |}
             (HdrObject [("Host", HScalar (SStr "a.example"))]) in
  let r := state_of (constructor_fields sample_env JNull o blank) in
  let o' := {| o_path := JStr "/x"; o_method := JStr "POST"; o_upgrade := JUndefined;
               o_headersTimeout := JUndefined; o_bodyTimeout := JUndefined;
               o_reset := JUndefined; o_expectContinue := JUndefined;
               o_throwOnError := JUndefined;
               o_body := BodyString ("caf" ++ String (ascii_of_nat 233) "");
               o_query := QUndefined; o_idempotent := JUndefined;
               o_blocking := JUndefined; o_headers := HdrAbsent |} in
  let r' := state_of (constructor_fields sample_env JNull o' blank) in
  idempotent r = JBool true /\ blocking r = JBool false /\ body r = BNull /\
  body r' = BBuffer ("caf" ++ String (ascii_of_nat 195) (String (ascii_of_nat 169) "")).
Proof.
  cbv zeta.
  match goal with
  | |- context [body (state_of (constructor_fields sample_env JNull ?o' blank))
                = BBuffer _] =>
      assert (B' : o_body o' <> BodyInvalid) by discriminate;
      destruct (constructor_fields_initial sample_env JNull o' eq_refl eq_refl B')
        as [F' _]
  end.
  match goal with
  | |- context [idempotent (state_of (constructor_fields sample_env JNull ?o blank))] =>
      assert (B : o_body o <> BodyInvalid) by discriminate;
      destruct (constructor_fields_initial sample_env JNull o eq_refl eq_refl B)
        as [F _]
  end.
  match type of F' with
  | outside_headers ?x = _ => remember x as r' eqn:Hr'; clear Hr'
  end.
  match type of F with
  | outside_headers ?x = _ => remember x as r eqn:Hr; clear Hr
  end.
  unfold outside_headers in F, F'. cbn in F, F'.
  injection F as _ _ _ Hb _ _ _ _ _ Hi Hk _ _ _ _ _.
  injection F' as _ _ _ Hb' _ _ _ _ _ _ _ _ _ _ _ _.
  repeat split; assumption.
Defined.

(* ------------------------------------------------------------------------- *)
(** ** The listeners on the body stream *)

(** X15: What [setupStream] attaches, [cleanupStreamListeners] detaches: on a
    request without listeners, the two in sequence give the request back,
    every [on] has its [off], a stream with [autoDestroy] gets the error
    listener only, and a second cleanup does nothing. *)
Theorem stream_listeners_round_trip (autoDestroy : bool) (r : Request) :
  errorHandler r = false -> endHandler r = false ->
  let attached := setupStream autoDestroy r in
  let detached := cleanupStreamListeners (state_of attached) in
  events_of attached
  = ((if autoDestroy then [] else [BodyOn "end"]) ++ [BodyOn "error"])%list /\
  events_of detached
  = (BodyOff "error" :: (if autoDestroy then [] else [BodyOff "end"]))%list /\
  state_of detached = r /\
  cleanupStreamListeners (state_of detached) = (state_of detached, [], Ok tt).
Proof.
  destruct r as [? ? ? ? ? ? ? ? ? ? ? ? ? ? ? e0 e1 ? ? ? ?].
  cbn [errorHandler endHandler]. intros -> ->.
  destruct autoDestroy; repeat split.
Qed.

Lemma stream_listeners_round_trip_witness :
  state_of (cleanupStreamListeners
              (state_of (setupStream false (get_x_fields JNull))))
  = get_x_fields JNull.
Proof.
  destruct (stream_listeners_round_trip false (get_x_fields JNull) eq_refl eq_refl)
    as (_ & _ & H & _).
  exact H.
Defined.

(** X16: [onComplete] and [onError] detach the listeners before anything
    else, whatever comes of the call: the calls they make start with the
    [off] of every listener that was attached, 'error' before 'end', and no
    [off] follows; afterwards the request has no listeners, and an 'error' or
    'end' of the body stream reaches nothing any more. *)
Theorem finishing_detaches (env : Env) (l : lifecycle) (e : error) (r : Request) :
  finishing l = true ->
  let r1 := state_of (call env l r) in
  (exists rest, events_of (call env l r) = (detach_events r ++ rest)%list /\
     forall name, ~ In (BodyOff name) rest) /\
  errorHandler r1 = false /\ endHandler r1 = false /\
  call env (LStreamError e) r1 = (r1, [], Ok JUndefined) /\
  call env LStreamEnd r1 = (r1, [], Ok JUndefined).
Proof.
  destruct r, l; cbn [finishing]; intros F; try discriminate;
    unfold_methods; unfold detach_events; case_split; cbn;
    (split; [|repeat split]);
    (eexists; split; [reflexivity|]);
    intros name I; cbn in I;
    repeat match goal with
      | H : _ \/ _ |- _ => destruct H as [H|H]
      end; try discriminate; try contradiction.
Qed.

(** [onError] on a request with a stream body that still has both listeners:
    both come off before the handler hears of the error, and an error of the
    stream reaches nothing afterwards. *)
Lemma finishing_detaches_witness :
  let r := streaming_request quiet_handler in
  let r1 := state_of (call sample_env (LError (Foreign 1)) r) in
  events_of (call sample_env (LError (Foreign 1)) r)
  = [BodyOff "error"; BodyOff "end"; HandlerCalled (CallError (Foreign 1))] /\
  call sample_env (LStreamError (Foreign 2)) r1 = (r1, [], Ok JUndefined).
Proof.
  cbv zeta.
  destruct (finishing_detaches sample_env (LError (Foreign 1)) (Foreign 2)
              (streaming_request quiet_handler) eq_refl)
    as ((rest & E & _) & _ & _ & H & _).
  split; [|exact H].
  cbn in E. injection E as <-. reflexivity.
Defined.

(* ------------------------------------------------------------------------- *)
(** ** Forwarding to the handler *)

(** X17: On a request that is neither completed nor aborted and has no deferred
    error, every call of the transport is forwarded once to the handler
    method of its name, with its arguments, and returns what the handler
    returns; when the handler has no such method, nothing is called and the
    call returns [undefined]. *)
Theorem call_forwards (env : Env) (l : lifecycle) (c : hcall) (h : Handler)
  (r : Request) :
  terminal r = false -> priv_error r = None -> priv_handler r = Some h ->
  forwarded l = Some c ->
  (forall v, has_method h (method_of c) = true -> run h c = Returns v ->
     result_of (call env l r) = Ok v /\
     handler_calls (events_of (call env l r)) = [c]) /\
  (has_method h (method_of c) = false ->
     result_of (call env l r) = Ok JUndefined /\
     handler_calls (events_of (call env l r)) = []).
Proof.
  unfold terminal.
  destruct r, l; cbn [completed aborted priv_error priv_handler forwarded];
    intros T -> -> F; try discriminate; injection F as <-;
    apply orb_false_iff in T as [-> ->];
    (split; [intros v Hm Hr | intros Hm]);
    unfold_methods; case_split; cbn in *; split; congruence.
Qed.

(** [onHeaders] to a handler that answers [false]. *)
Lemma call_forwards_witness :
  let h := {| has_method := fun _ => true; run := fun _ => Returns (JBool false) |} in
  result_of (call sample_env (LHeaders 200 [] 1 "OK") (fresh_request h))
  = Ok (JBool false).
Proof.
  cbv zeta.
  destruct (call_forwards sample_env (LHeaders 200 [] 1 "OK")
              (CallHeaders 200 [] 1 "OK")
              {| has_method := fun _ => true; run := fun _ => Returns (JBool false) |}
              (fresh_request
                 {| has_method := fun _ => true; run := fun _ => Returns (JBool false) |})
              eq_refl eq_refl eq_refl eq_refl) as [H _].
  exact (proj1 (H (JBool false) eq_refl eq_refl)).
Defined.

(** X18: [onBodySent], [onRequestSent] and [onResponseStarted] have no
    precondition: also on a completed or aborted request they reach the
    handler, and they never change the request. *)
Theorem unguarded_calls (env : Env) (l : lifecycle) (c : hcall) (h : Handler)
  (r : Request) :
  unguarded l = true -> forwarded l = Some c ->
  priv_handler r = Some h -> has_method h (method_of c) = true ->
  state_of (call env l r) = r /\
  handler_calls (events_of (call env l r)) = [c] /\
  result_of (call env l r) <> Throw AssertionError.
Proof.
  destruct r, l; cbn [unguarded forwarded priv_handler]; intros U F -> Hm;
    try discriminate; injection F as <-;
    unfold_methods; case_split; cbn in *; repeat split; congruence.
Qed.

(** [onBodySent] after [onError]. *)
Lemma unguarded_calls_witness :
  handler_calls (events_of (call sample_env (LBodySent "x")
     (state_of (onError sample_env (Foreign 1) (fresh_request quiet_handler)))))
  = [CallBodySent "x"].
Proof.
  destruct (unguarded_calls sample_env (LBodySent "x") (CallBodySent "x") quiet_handler
              (state_of (onError sample_env (Foreign 1) (fresh_request quiet_handler)))
              eq_refl eq_refl eq_refl eq_refl) as (_ & H & _).
  exact H.
Defined.

(* ------------------------------------------------------------------------- *)
(** ** Errors of the body stream *)

Lemma run_stream_errors (env : Env) (es : list error) (e : error) (r : Request) :
  errorHandler r = true -> priv_abort r = None ->
  run_calls env (stream_errors (es ++ [e])) r = (set_priv_error (Some e) r, []).
Proof.
  revert r; induction es as [|e0 es IH]; intros r H A.
  - destruct r; cbn in H, A; subst. reflexivity.
  - cbn [app stream_errors map run_calls]. fold (stream_errors (es ++ [e])).
    assert (E : call env (LStreamError e0) r = (set_priv_error (Some e0) r, [], Ok JUndefined)).
    { destruct r; cbn in H, A; subst. reflexivity. }
    rewrite E, IH by (destruct r; assumption).
    now destruct r.
Qed.

(** X19: Before the transport connects, the errors of the body stream call
    nothing and the last one is the one kept: [onConnect(abort)] on a request
    that is neither completed nor aborted hands exactly that one to [abort].
    Once a capability is stored, an error of the stream calls it at once and
    nothing is kept. *)
Theorem stream_errors_reach_abort (env : Env) (es : list error) (e : error)
  (abort : nat) (r : Request) :
  errorHandler r = true -> aborted r = false -> completed r = false ->
  (priv_abort r = None ->
     let r1 := fst (run_calls env (stream_errors (es ++ [e])) r) in
     snd (run_calls env (stream_errors (es ++ [e])) r) = [] /\
     onConnect abort r1 = (r1, [AbortCalled abort e], Ok JUndefined)) /\
  (priv_abort r = Some abort ->
     call env (LStreamError e) r = (r, [AbortCalled abort e], Ok JUndefined)).
Proof.
  intros H A C. split.
  - intros P. rewrite (run_stream_errors env es e r H P). cbn [fst snd].
    split; [reflexivity|]. apply onConnect_replays; now destruct r.
  - intros P. destruct r; cbn in H, P; subst. reflexivity.
Qed.

(** Two errors of the stream, then [onConnect(3)]. *)
Lemma stream_errors_reach_abort_witness :
  onConnect 3 (fst (run_calls sample_env (stream_errors [Foreign 1; Foreign 2])
                      (streaming_request quiet_handler)))
  = (fst (run_calls sample_env (stream_errors [Foreign 1; Foreign 2])
            (streaming_request quiet_handler)),
     [AbortCalled 3 (Foreign 2)], Ok JUndefined).
Proof.
  destruct (stream_errors_reach_abort sample_env [Foreign 1] (Foreign 2) 3
              (streaming_request quiet_handler) eq_refl eq_refl eq_refl) as [H _].
  exact (proj2 (H eq_refl)).
Defined.

(* ------------------------------------------------------------------------- *)
(** ** errorRequest *)

(** X21: [errorRequest] always leaves the request aborted, so its own assertion
    never fails; the handler hears of the error at most once; and the client
    is told of an error only when [onError] itself throws, which it does
    with a TypeError when the handler's [onError] throws or the request has
    no handler. *)
Theorem errorRequest_aborts (env : Env) (err : error) (r : Request) :
  let out := errorRequest env err r in
  aborted (fst (fst out)) = true /\
  snd out <> Some AssertionError /\
  (List.length (handler_calls (snd (fst out))) <= 1)%nat /\
  (snd out = None \/ exists msg, snd out = Some (TypeError msg)) /\
  (forall h v, priv_handler r = Some h -> run h (CallError err) = Returns v ->
     snd out = None).
Proof.
  unfold errorRequest.
  destruct r; unfold_methods; case_split; cbn;
    repeat split; try discriminate; try lia; eauto;
    intros h0 v0 Hh Hv; try reflexivity; try discriminate;
    injection Hh as <-; congruence.
Qed.

(* ------------------------------------------------------------------------- *)
(** ** assertRequestHandler *)

(** X22: [assertRequestHandler] accepts an object exactly when [onConnect] and
    [onError] are functions and, unless there is an upgrade or the method is
    CONNECT, [onHeaders], [onData] and [onComplete] are functions too. *)
Theorem assertRequestHandler_contract (is_function : hmethod -> bool)
  (method upgrade : jsval) :
  assertRequestHandler (HaObject is_function) method upgrade = Ok tt <->
  is_function OnConnect = true /\ is_function OnError = true /\
  ((truthy upgrade || jsval_is method "CONNECT") = false ->
   is_function OnHeaders = true /\ is_function OnData = true /\
   is_function OnComplete = true).
Proof.
  unfold assertRequestHandler. cbn [app assert_methods].
  destruct (is_function OnConnect) eqn:C;
    [|split; [discriminate | intros (? & _); discriminate]].
  destruct (is_function OnError) eqn:E;
    [|split; [discriminate | intros (_ & ? & _); discriminate]].
  destruct (truthy upgrade || jsval_is method "CONNECT") eqn:U; cbn.
  - split; [intros _; split; [reflexivity | split; [reflexivity | discriminate]]
           | reflexivity].
  - destruct (is_function OnHeaders) eqn:H, (is_function OnData) eqn:D,
      (is_function OnComplete) eqn:K; cbn;
      (split; [intros X; try discriminate X; repeat split
              | intros (_ & _ & Y); destruct (Y eq_refl) as (? & ? & ?); congruence]).
Qed.

(** A handler with every method, for GET; one with [onConnect] and [onError]
    only, for CONNECT. *)
Lemma assertRequestHandler_contract_witness :
  assertRequestHandler (HaObject (has_method quiet_handler)) (JStr "GET") JUndefined
  = Ok tt /\
  assertRequestHandler
    (HaObject (fun m => match m with OnConnect | OnError => true | _ => false end))
    (JStr "CONNECT") JUndefined = Ok tt.
Proof.
  split.
  - apply (proj2 (assertRequestHandler_contract (has_method quiet_handler)
                    (JStr "GET") JUndefined)).
    repeat split.
  - apply (proj2 (assertRequestHandler_contract
                    (fun m => match m with OnConnect | OnError => true | _ => false end)
                    (JStr "CONNECT") JUndefined)).
    split; [reflexivity|]. split; [reflexivity|]. discriminate.
Defined.

(** A handler that returns, and one that throws. *)
Lemma errorRequest_aborts_witness :
  snd (errorRequest sample_env (Foreign 1) (fresh_request quiet_handler)) = None /\
  aborted (fst (fst (errorRequest sample_env (Foreign 1)
                       (fresh_request failing_handler)))) = true.
Proof.
  destruct (errorRequest_aborts sample_env (Foreign 1) (fresh_request quiet_handler))
    as (_ & _ & _ & _ & H).
  destruct (errorRequest_aborts sample_env (Foreign 1) (fresh_request failing_handler))
    as (K & _).
  split; [exact (H quiet_handler JUndefined eq_refl eq_refl) | exact K].
Defined.

(* ------------------------------------------------------------------------- *)
(** ** parseKeepAliveTimeout *)

Lemma match_timeout_digits (val d : string) :
  match_timeout val = Some d -> digits d = true.
Proof.
  induction val as [|c val IH]; cbn [match_timeout].
  - cbn. discriminate.
  - destruct (strip_prefix "timeout=" (String c val)) as [r|] eqn:P.
    + destruct (span_digits r) as [g rest] eqn:S.
      destruct (str_truthy g).
      * intros H; inversion H; subst. now apply span_digits_split in S.
      * exact IH.
    + exact IH.
Qed.

Lemma match_timeout_here (d rest : string) :
  digits d = true -> d <> "" -> no_leading_digit rest ->
  match_timeout ("timeout=" ++ d ++ rest) = Some d.
Proof.
  intros D N R.
  change ("timeout=" ++ d ++ rest) with (String "t" ("imeout=" ++ d ++ rest)).
  cbn [match_timeout].
  change (String "t" ("imeout=" ++ d ++ rest)) with ("timeout=" ++ d ++ rest).
  rewrite strip_prefix_app, (span_digits_app d rest D R).
  apply str_truthy_true in N. now rewrite N.
Qed.

Lemma match_timeout_skip (pre s : string) :
  includes_char pre "t" = false ->
  match_timeout (pre ++ s) = match_timeout s.
Proof.
  induction pre as [|c pre IH]; intros H; [reflexivity|].
  cbn in H. apply orb_false_iff in H as [Hc Hp].
  change (String c pre ++ s) with (String c (pre ++ s)).
  cbn [match_timeout strip_prefix].
  rewrite Ascii.eqb_sym, Hc. now apply IH.
Qed.

Lemma match_timeout_nonempty (val d : string) :
  match_timeout val = Some d -> d <> "".
Proof.
  induction val as [|c val IH]; cbn [match_timeout].
  - cbn. discriminate.
  - destruct (strip_prefix "timeout=" (String c val)) as [r|] eqn:P.
    + destruct (span_digits r) as [g rest] eqn:S.
      destruct (str_truthy g) eqn:T.
      * intros H; inversion H; subst. now apply str_truthy_true.
      * exact IH.
    + exact IH.
Qed.

(** A thousand times a Number that is not negative is none either. *)
Lemma times_1000_nonneg (z : Z) :
  0 <= z ->
  times_1000 (number_of z) = IInf false \/
  exists k, times_1000 (number_of z) = IInt k /\ 0 <= k.
Proof.
  intros H. destruct (number_of_nonneg z H) as [-> | (d & -> & D)]; [now left|].
  cbn [times_1000]. apply number_of_nonneg. lia.
Qed.

(** X23: [parseKeepAliveTimeout] answers in milliseconds: "timeout=" followed
    by digits gives a thousand times their value as a Number, which is the
    exact product as long as that is below 2^53, also after a prefix without
    a "t" and before anything that does not go on with a digit; a result is
    Infinity or an integer that is not negative, never NaN. *)
Theorem parseKeepAliveTimeout_milliseconds (pre d rest : string) :
  (forall val n, parseKeepAliveTimeout val = Some n ->
     n = IInf false \/ exists k, n = IInt k /\ 0 <= k) /\
  (digits d = true -> d <> "" -> no_leading_digit rest ->
   includes_char pre "t" = false ->
   parseKeepAliveTimeout (pre ++ "timeout=" ++ d ++ rest)
   = Some (times_1000 (number_of (digits_value 0 d))) /\
   (digits_value 0 d * 1000 < 2 ^ 53 ->
    parseKeepAliveTimeout (pre ++ "timeout=" ++ d ++ rest)
    = Some (IInt (digits_value 0 d * 1000)))).
Proof.
  assert (E : forall m, digits m = true -> m <> "" ->
                parseInt10_number m = number_of (digits_value 0 m)).
  { intros m D N. rewrite <- (append_empty m) at 1.
    now apply parseInt10_number_digits. }
  split.
  - intros val n. unfold parseKeepAliveTimeout.
    destruct (match_timeout val) as [m|] eqn:M; [|discriminate].
    intros H; inversion H; subst.
    pose proof (match_timeout_digits val m M) as D.
    rewrite (E m D (match_timeout_nonempty val m M)).
    apply times_1000_nonneg. apply digits_value_nonneg; [exact D|lia].
  - intros D N R P. unfold parseKeepAliveTimeout.
    rewrite (match_timeout_skip pre _ P), (match_timeout_here d rest D N R).
    rewrite (E d D N). split; [reflexivity|].
    intros B. pose proof (digits_value_nonneg d 0 D (Z.le_refl 0)) as G.
    rewrite number_of_small by lia. cbn [times_1000].
    rewrite number_of_small by lia. reflexivity.
Qed.

(** "max=5, timeout=10" is ten seconds; 72057594037929 seconds are
    72057594037928992 milliseconds, the nearest Number. *)
Lemma parseKeepAliveTimeout_milliseconds_witness :
  parseKeepAliveTimeout "max=5, timeout=10" = Some (IInt 10000) /\
  parseKeepAliveTimeout "timeout=72057594037929" = Some (IInt 72057594037928992).
Proof.
  assert (N1 : "10" <> "") by discriminate.
  assert (N2 : "72057594037929" <> "") by discriminate.
  split.
  - refine (proj2 (proj2 (parseKeepAliveTimeout_milliseconds "max=5, " "10" "")
                     eq_refl N1 I eq_refl) _).
    vm_compute. reflexivity.
  - exact (proj1 (proj2 (parseKeepAliveTimeout_milliseconds "" "72057594037929" "")
                    eq_refl N2 I eq_refl)).
Defined.

(* ------------------------------------------------------------------------- *)
(** ** isValidPort *)

(** X24: [isValidPort] reads the leading digits of its argument and nothing else:
    digits followed by anything that is not a digit make a valid port exactly
    when their value is at most 65535; without a leading number, or with a
    minus sign before a positive one, the port is refused. *)
Theorem isValidPort_leading_digits (d rest : string) :
  digits d = true -> d <> "" -> no_leading_digit rest ->
  isValidPort (d ++ rest) = (digits_value 0 d <=? 65535) /\
  (0 < digits_value 0 d -> isValidPort ("-" ++ d ++ rest) = false) /\
  (parseInt10 rest = None -> isValidPort rest = false).
Proof.
  intros D N R.
  pose proof (digits_value_nonneg d 0 D (Z.le_refl 0)) as P.
  split; [|split].
  - unfold isValidPort. rewrite (parseInt10_number_digits d rest D N R).
    destruct (Z.lt_ge_cases (digits_value 0 d) (2 ^ 53)) as [S|L].
    + rewrite number_of_small by lia. apply Z.leb_le in P. now rewrite P.
    + assert (B : (digits_value 0 d <=? 65535) = false)
        by (apply Z.leb_gt; revert L; generalize (digits_value 0 d); lia).
      rewrite B.
      destruct (number_of_large _ L) as [-> | (k & -> & K)]; [reflexivity|].
      assert (C : (k <=? 65535) = false) by (apply Z.leb_gt; lia).
      now rewrite C, andb_false_r.
  - intros Pos. unfold isValidPort, parseInt10_number.
    assert (E : parseInt10 ("-" ++ d ++ rest) = Some (- digits_value 0 d)).
    { pose proof (parseInt10_digits d rest D N R) as Q.
      destruct d as [|c d]; [congruence|].
      assert (Hc : is_digit c = true).
      { unfold digits in D; cbn [every] in D. now apply andb_true_iff in D as [Hc _]. }
      unfold parseInt10.
      change (trim_start ("-" ++ String c d ++ rest)) with ("-" ++ String c d ++ rest).
      cbn [append].
      change (String c (d ++ rest)) with (String c d ++ rest).
      now rewrite (span_digits_app (String c d) rest D R). }
    rewrite E. now apply number_of_negative.
  - intros Q. unfold isValidPort, parseInt10_number. now rewrite Q.
Qed.

(** "8080" is a port, and so is "80abc"; "65536" and "-1" are none. *)
Lemma isValidPort_leading_digits_witness :
  isValidPort "8080" = true /\ isValidPort "80abc" = true /\
  isValidPort "65536" = false /\ isValidPort "-1" = false.
Proof.
  assert (N1 : "8080" <> "") by discriminate.
  assert (N2 : "80" <> "") by discriminate.
  assert (N3 : "65536" <> "") by discriminate.
  assert (N4 : "1" <> "") by discriminate.
  split; [|split; [|split]].
  - exact (proj1 (isValidPort_leading_digits "8080" "" eq_refl N1 I)).
  - exact (proj1 (isValidPort_leading_digits "80" "abc" eq_refl N2 eq_refl)).
  - exact (proj1 (isValidPort_leading_digits "65536" "" eq_refl N3 I)).
  - exact (proj1 (proj2 (isValidPort_leading_digits "1" "" eq_refl N4 I)) eq_refl).
Defined.

(* ------------------------------------------------------------------------- *)
(** ** getHostname *)

Lemma split_first_app (a rest : string) (c : ascii) :
  includes_char a c = false -> split_first (a ++ String c rest) c = a.
Proof.
  induction a as [|d a IH]; cbn; intros H.
  - now rewrite Ascii.eqb_refl.
  - apply orb_false_iff in H as [Hd Ha]. now rewrite Hd, (IH Ha).
Qed.

Lemma split_first_none (s : string) (c : ascii) :
  includes_char s c = false -> split_first s c = s.
Proof.
  induction s as [|d s IH]; cbn; intros H; [reflexivity|].
  apply orb_false_iff in H as [Hd Hs]. now rewrite Hd, (IH Hs).
Qed.

Lemma indexOf_char_app (a rest : string) (c : ascii) :
  includes_char a c = false ->
  indexOf_char (a ++ String c rest) c = Some (String.length a).
Proof.
  induction a as [|d a IH]; cbn; intros H.
  - now rewrite Ascii.eqb_refl.
  - apply orb_false_iff in H as [Hd Ha]. now rewrite Hd, (IH Ha).
Qed.

Lemma indexOf_char_none (s : string) (c : ascii) :
  includes_char s c = false -> indexOf_char s c = None.
Proof.
  induction s as [|d s IH]; cbn; intros H; [reflexivity|].
  apply orb_false_iff in H as [Hd Hs]. now rewrite Hd, (IH Hs).
Qed.

Lemma substring_prefix (a rest : string) :
  String.substring 0 (String.length a) (a ++ rest) = a.
Proof.
  induction a as [|d a IH]; cbn.
  - now destruct rest.
  - now rewrite IH.
Qed.

Lemma length_append (a b : string) :
  String.length (a ++ b) = (String.length a + String.length b)%nat.
Proof. induction a as [|d a IH]; cbn; [reflexivity | now rewrite IH]. Qed.

Lemma includes_char_app (a b : string) (c : ascii) :
  includes_char (a ++ b) c = includes_char a c || includes_char b c.
Proof.
  induction a as [|d a IH]; cbn; [reflexivity|]. now rewrite IH, orb_assoc.
Qed.

Lemma prefix_empty (s : string) : String.prefix "" s = true.
Proof. now destruct s. Qed.

Lemma startsWith_bracket (s : string) : startsWith ("[" ++ s) "[" = true.
Proof.
  unfold startsWith. cbn [String.prefix append].
  destruct (ascii_dec "[" "["); [apply prefix_empty | congruence].
Qed.

(** X25: [getHostname]: of a bracketed address it gives what is between the
    brackets; without a closing bracket it gives what follows the opening
    one, less the last character; of any other host it gives what precedes
    the first colon, or the whole host when there is none. *)
Theorem getHostname_cases (a rest : string) (c : ascii) :
  (includes_char a "]" = false ->
     getHostname ("[" ++ a ++ "]" ++ rest) = a) /\
  (includes_char a "]" = false -> Ascii.eqb c "]" = false ->
     getHostname ("[" ++ a ++ String c "") = a) /\
  (startsWith a "[" = false -> includes_char a ":" = false ->
     getHostname (a ++ ":" ++ rest) = a /\ getHostname a = a).
Proof.
  split; [|split].
  - intros H. unfold getHostname. rewrite startsWith_bracket.
    change ("[" ++ a ++ "]" ++ rest) with (("[" ++ a) ++ String "]" rest).
    rewrite (indexOf_char_app ("[" ++ a) rest "]") by exact H.
    cbn [String.length Nat.sub append String.substring].
    rewrite Nat.sub_0_r. apply substring_prefix.
  - intros H Hc. unfold getHostname. rewrite startsWith_bracket.
    rewrite (indexOf_char_none ("[" ++ a ++ String c "") "]").
    + cbn [append String.length Nat.sub String.substring].
      rewrite length_append. cbn [String.length].
      replace (String.length a + 1 - 1)%nat with (String.length a) by lia.
      apply substring_prefix.
    + rewrite !includes_char_app, H. cbn [includes_char]. now rewrite Hc.
  - intros S H. unfold getHostname. split.
    + assert (S' : startsWith (a ++ ":" ++ rest) "[" = false).
      { destruct a as [|d a]; [reflexivity|].
        unfold startsWith in *. cbn [String.prefix append] in *.
        destruct (ascii_dec "[" d); [|reflexivity].
        now rewrite prefix_empty in S. }
      rewrite S'. now apply split_first_app.
    + rewrite S. now apply split_first_none.
Qed.

(** "[::1]:8080", "[::1" and "example.com:443". *)
Lemma getHostname_cases_witness :
  getHostname "[::1]:8080" = "::1" /\ getHostname "[::1" = "::" /\
  getHostname "example.com:443" = "example.com".
Proof.
  split; [|split].
  - exact (proj1 (getHostname_cases "::1" ":8080" "x") eq_refl).
  - exact (proj1 (proj2 (getHostname_cases "::" "" "1")) eq_refl eq_refl).
  - exact (proj1 (proj2 (proj2 (getHostname_cases "example.com" "443" "x"))
                    eq_refl eq_refl)).
Defined.

(* ------------------------------------------------------------------------- *)
(** ** parseRawHeaders *)

Lemma list_pair_ind {A} (P : list A -> Prop) :
  P [] -> (forall x, P [x]) -> (forall x y l, P l -> P (x :: y :: l)) ->
  forall l, P l.
Proof.
  intros H0 H1 H2 l.
  assert (H : P l /\ forall x, P (x :: l)).
  { induction l as [|a l [IH1 IH2]]; split; auto. }
  exact (proj1 H).
Qed.

Lemma scan_raw_odd (h : list string) (n : nat) (b : bool) (c : option nat) :
  Nat.odd (List.length h) = true ->
  scan_raw n h b c = Throw (TypeError "Cannot read properties of undefined").
Proof.
  revert n b c. induction h as [|x|x y l IH] using list_pair_ind; intros n b c O.
  - discriminate.
  - reflexivity.
  - cbn [scan_raw]. change (Nat.odd (List.length l) = true) in O.
    destruct (String.eqb (toLowerCase x) "content-length"); [now apply IH|].
    destruct (String.eqb (toLowerCase x) "content-disposition"); now apply IH.
Qed.

Lemma scan_raw_even (h : list string) (n : nat) (b : bool) (c : option nat) :
  Nat.even (List.length h) = true ->
  exists c',
    scan_raw n h b c = Ok (b || has_raw_name "content-length" h, c') /\
    (c' = c \/ exists k, c' = Some (n + (2 * k + 1))%nat) /\
    (has_raw_name "content-disposition" h = false -> c' = c).
Proof.
  revert n b c. induction h as [|x|x y l IH] using list_pair_ind; intros n b c E.
  - exists c. rewrite orb_false_r. repeat split; auto.
  - discriminate.
  - change (Nat.even (List.length l) = true) in E.
    cbn [scan_raw]. unfold has_raw_name. cbn [raw_names existsb].
    fold (has_raw_name "content-length" l).
    fold (has_raw_name "content-disposition" l).
    destruct (String.eqb (toLowerCase x) "content-length") eqn:CL.
    + destruct (IH (n + 2)%nat true c E) as (c' & Sc & I & D).
      exists c'. rewrite Sc. cbn [orb]. rewrite orb_true_r.
      split; [reflexivity|]. split.
      * destruct I as [I|[k I]]; [now left|].
        right. exists (S k). rewrite I. f_equal. lia.
      * intros H. apply orb_false_iff in H as [_ H]. now apply D.
    + destruct (String.eqb (toLowerCase x) "content-disposition") eqn:CD.
      * destruct (IH (n + 2)%nat b (Some (n + 1)%nat) E) as (c' & Sc & I & D).
        exists c'. rewrite Sc. cbn [orb].
        split; [reflexivity|]. split; [|discriminate].
        right. destruct I as [I|[k I]].
        -- exists O. rewrite I. f_equal.
        -- exists (S k). rewrite I. f_equal. lia.
      * destruct (IH (n + 2)%nat b c E) as (c' & Sc & I & D).
        exists c'. rewrite Sc. cbn [orb].
        split; [reflexivity|]. split; [|exact D].
        destruct I as [I|[k I]]; [now left|].
        right. exists (S k). rewrite I. f_equal. lia.
Qed.

Lemma update_nth_length (i : nat) (f : string -> string) (l : list string) :
  List.length (update_nth i f l) = List.length l.
Proof.
  revert i; induction l as [|x l IH]; intros [|i]; cbn; auto.
Qed.

Lemma update_nth_names (k : nat) (f : string -> string) (l : list string) :
  raw_names (update_nth (2 * k + 1) f l) = raw_names l.
Proof.
  revert k. induction l as [|x|x y l IH] using list_pair_ind; intros k.
  - reflexivity.
  - replace (2 * k + 1)%nat with (S (2 * k)) by lia. reflexivity.
  - destruct k as [|k].
    + reflexivity.
    + replace (2 * S k + 1)%nat with (S (S (2 * k + 1))) by lia.
      cbn [update_nth raw_names]. now rewrite IH.
Qed.

Lemma update_nth_id (i : nat) (f : string -> string) (l : list string) :
  (forall x, In x l -> f x = x) -> update_nth i f l = l.
Proof.
  revert i; induction l as [|x l IH]; intros [|i] H; cbn; auto.
  - now rewrite (H x (or_introl eq_refl)).
  - rewrite IH; [reflexivity|]. intros y I. apply H. now right.
Qed.

Lemma utf8_as_latin1_ascii (s : string) :
  ascii_only s = true -> utf8_as_latin1 s = s.
Proof.
  induction s as [|c s IH]; [reflexivity|].
  unfold ascii_only. cbn [every utf8_as_latin1]. intros H.
  apply andb_true_iff in H as [Hc Hs]. rewrite Hc. now rewrite (IH Hs).
Qed.

(** X26: [parseRawHeaders] throws on a list of odd length.  On one of even length
    it returns a list of the same length with the same names; the list is the
    very one it was given unless it has both a content-length and a
    content-disposition name, and also when every element is ASCII: the only
    thing ever rewritten is a value, and only its non-ASCII characters. *)
Theorem parseRawHeaders_rewrites (headers : list string) :
  (Nat.odd (List.length headers) = true ->
   parseRawHeaders headers = Throw (TypeError "Cannot read properties of undefined")) /\
  (Nat.even (List.length headers) = true ->
   exists out,
     parseRawHeaders headers = Ok out /\
     List.length out = List.length headers /\
     raw_names out = raw_names headers /\
     (has_raw_name "content-length" headers
      && has_raw_name "content-disposition" headers = false -> out = headers) /\
     (forallb ascii_only headers = true -> out = headers)).
Proof.
  split.
  - intros O. unfold parseRawHeaders. now rewrite (scan_raw_odd headers 0 false None O).
  - intros E. unfold parseRawHeaders.
    destruct (scan_raw_even headers 0 false None E) as (c' & S & I & D).
    rewrite S. cbn [orb].
    destruct (has_raw_name "content-length" headers) eqn:CL;
      [|exists headers; repeat split; auto].
    destruct I as [->|[k ->]]; [exists headers; repeat split; auto|].
    cbn [Nat.add].
    exists (update_nth (2 * k + 1) utf8_as_latin1 headers).
    split; [reflexivity|]. split; [apply update_nth_length|].
    split; [apply update_nth_names|]. split.
    + cbn [andb]. intros H. specialize (D H). discriminate.
    + intros A. apply update_nth_id. intros x Hx.
      apply utf8_as_latin1_ascii.
      exact (proj1 (forallb_forall ascii_only headers) A x Hx).
Qed.

(** A response with a length and an ASCII file name; a list of three. *)
Lemma parseRawHeaders_rewrites_witness :
  parseRawHeaders ["Content-Length"; "5"; "Content-Disposition"; "attachment"]
  = Ok ["Content-Length"; "5"; "Content-Disposition"; "attachment"] /\
  parseRawHeaders ["a"; "b"; "c"]
  = Throw (TypeError "Cannot read properties of undefined").
Proof.
  destruct (parseRawHeaders_rewrites
              ["Content-Length"; "5"; "Content-Disposition"; "attachment"])
    as [_ H].
  destruct (H eq_refl) as (out & E & _ & _ & _ & A).
  rewrite E, (A eq_refl).
  split; [reflexivity|].
  exact (proj1 (parseRawHeaders_rewrites ["a"; "b"; "c"]) eq_refl).
Defined.

(* ------------------------------------------------------------------------- *)
(** ** host, connection and content-type *)

(** X7: A connection header, whatever the case of its value: "close" turns the
    reset on, "keep-alive" changes nothing, every other string, and every
    array, is refused with "Invalid connection header"; nothing is stored in
    the header table. *)
Theorem connection_header (env : Env) (key s : string) (vs : list scalar)
  (r : Request) :
  canonical_name env key = "connection" ->
  (isValidHeaderValue s = true ->
   addHeader env key (HScalar (SStr s)) r
   = if String.eqb (toLowerCase s) "close" then (set_reset (JBool true) r, [], Ok tt)
     else if String.eqb (toLowerCase s) "keep-alive" then (r, [], Ok tt)
     else (r, [], Throw (InvalidArgumentError "Invalid connection header"))) /\
  addHeader env key (HArray vs) r
  = (r, [], Throw (InvalidArgumentError "Invalid connection header")).
Proof.
  intros C.
  assert (K : key_accepted env key = true).
  { unfold key_accepted. rewrite C. apply orb_true_r. }
  split.
  - intros V.
    assert (D : HScalar (SStr s) <> HScalar SUndefined) by discriminate.
    rewrite (addHeader_accepted env key _ r D K V), C.
    cbn [normalised template]. unfold assignHeader. cbn [String.eqb Ascii.eqb Bool.eqb orb].
    now destruct (String.eqb (toLowerCase s) "close"),
      (String.eqb (toLowerCase s) "keep-alive").
  - assert (D : HArray vs <> HScalar SUndefined) by discriminate.
    rewrite (addHeader_accepted env key _ r D K eq_refl), C. reflexivity.
Qed.

(** [Connection: Close]. *)
Lemma connection_header_witness :
  reset (state_of (addHeader sample_env "Connection" (HScalar (SStr "Close"))
                     (get_x_fields JNull))) = JBool true.
Proof.
  destruct (connection_header sample_env "Connection" "Close" []
              (get_x_fields JNull) eq_refl) as [H _].
  now rewrite (H eq_refl).
Defined.

(** X6: A host header: the first string value becomes the host of the request,
    a later one is ignored, an array is ignored without error, and none is
    stored in the header table. *)
Theorem host_header (env : Env) (key s : string) (vs : list scalar) (r : Request) :
  canonical_name env key = "host" ->
  (isValidHeaderValue s = true ->
   addHeader env key (HScalar (SStr s)) r
   = (match host r with None => set_host (Some s) r | Some _ => r end, [], Ok tt)) /\
  addHeader env key (HArray vs) r = (r, [], Ok tt).
Proof.
  intros C.
  assert (K : key_accepted env key = true).
  { unfold key_accepted. rewrite C. apply orb_true_r. }
  split.
  - intros V.
    assert (D : HScalar (SStr s) <> HScalar SUndefined) by discriminate.
    rewrite (addHeader_accepted env key _ r D K V), C.
    destruct r as [? ? ? ? ? ? ? ? ? ? ? ? [h|] ? ? ? ? ? ? ? ?]; reflexivity.
  - assert (D : HArray vs <> HScalar SUndefined) by discriminate.
    rewrite (addHeader_accepted env key _ r D K eq_refl), C.
    destruct r as [? ? ? ? ? ? ? ? ? ? ? ? [h|] ? ? ? ? ? ? ? ?]; reflexivity.
Qed.

(** [Host: a.example] and then [host: b.example]. *)
Lemma host_header_witness :
  host (state_of (addHeader sample_env "host" (HScalar (SStr "b.example"))
     (state_of (addHeader sample_env "Host" (HScalar (SStr "a.example"))
                  (get_x_fields JNull)))))
  = Some "a.example".
Proof.
  destruct (host_header sample_env "Host" "a.example" [] (get_x_fields JNull) eq_refl)
    as [H _].
  rewrite (H eq_refl).
  destruct (host_header sample_env "host" "b.example" []
              (set_host (Some "a.example") (get_x_fields JNull)) eq_refl) as [H' _].
  cbn [host get_x_fields state_of fst].
  now rewrite (H' eq_refl).
Defined.

(** X8: A content-type header: the first one sets the content type of the
    request and is stored in the header table under its original key; every
    later one, under whatever key, changes nothing. *)
Theorem content_type_header (env : Env) (key : string) (value : hvalue)
  (r : Request) :
  canonical_name env key = "content-type" ->
  key_accepted env key = true ->
  value <> HScalar SUndefined -> value_accepted value = true ->
  addHeader env key value r
  = match contentType r with
    | None =>
        (set_priv_headers (map_set (priv_headers r) key (normalised value))
           (set_contentType (Some (normalised value)) r), [], Ok tt)
    | Some _ => (r, [], Ok tt)
    end.
Proof.
  intros C K D V.
  rewrite (addHeader_accepted env key _ r D K V), C.
  destruct r as [? ? ? ? ? ? ? ? ? ? ? ? ? ? [t|] ? ? ? ? ? ?]; reflexivity.
Qed.

(** [Content-Type: text/plain] and then [content-type: text/html]. *)
Lemma content_type_header_witness :
  priv_headers (state_of (addHeader sample_env "content-type" (HScalar (SStr "text/html"))
     (state_of (addHeader sample_env "Content-Type" (HScalar (SStr "text/plain"))
                  (get_x_fields JNull)))))
  = [("Content-Type", NStr "text/plain")].
Proof.
  assert (D1 : HScalar (SStr "text/plain") <> HScalar SUndefined) by discriminate.
  assert (D2 : HScalar (SStr "text/html") <> HScalar SUndefined) by discriminate.
  rewrite (content_type_header sample_env "Content-Type" _ (get_x_fields JNull)
             eq_refl eq_refl D1 eq_refl).
  cbn [contentType get_x_fields state_of fst].
  now rewrite (content_type_header sample_env "content-type" _ _ eq_refl eq_refl D2 eq_refl).
Defined.

(** X3: A string value with a CR or an LF is never added: [addHeader] throws an
    InvalidArgumentError, under every name and key, and the request stays as
    it was. *)
Theorem addHeader_refuses_crlf (env : Env) (key s : string) (r : Request) :
  includes_char s (ascii_of_nat 13) = true \/ includes_char s (ascii_of_nat 10) = true ->
  state_of (addHeader env key (HScalar (SStr s)) r) = r /\
  exists msg, result_of (addHeader env key (HScalar (SStr s)) r)
              = Throw (InvalidArgumentError msg).
Proof.
  intros H.
  assert (V : isValidHeaderValue s = false).
  { destruct (isValidHeaderValue s) eqn:E; [|reflexivity].
    destruct (valid_value_no_crlf s E) as [A B].
    destruct H as [H|H]; congruence. }
  destruct (addHeader_scalar_invalid env key s r V) as (S1 & _ & S3).
  split; assumption.
Qed.

Lemma addHeader_refuses_crlf_witness :
  exists msg,
    result_of (addHeader sample_env "accept" (HScalar (SStr injected))
                 (get_x_fields JNull))
    = Throw (InvalidArgumentError msg).
Proof.
  exact (proj2 (addHeader_refuses_crlf sample_env "accept" injected
                  (get_x_fields JNull) (or_introl eq_refl))).
Defined.

(* ------------------------------------------------------------------------- *)
(** ** The handler is told once *)

Lemma completions_app (a b : list event) :
  completions (a ++ b) = (completions a + completions b)%nat.
Proof.
  induction a as [|x a IH]; [reflexivity|].
  destruct x as [ |[]| | | ]; cbn; now rewrite IH.
Qed.

Lemma errors_told_app (a b : list event) :
  errors_told (a ++ b) = (errors_told a + errors_told b)%nat.
Proof.
  induction a as [|x a IH]; [reflexivity|].
  destruct x as [ |[]| | | ]; cbn; now rewrite IH.
Qed.

(** One call tells the handler of a completion at most once, not at all on a
    completed or aborted request, and leaves the request completed when it
    does; and likewise of an error. *)
Lemma call_tells_once (env : Env) (l : lifecycle) (r : Request) :
  (completions (events_of (call env l r)) <= 1)%nat /\
  (terminal r = true -> completions (events_of (call env l r)) = O) /\
  (completions (events_of (call env l r)) = 1%nat ->
   completed (state_of (call env l r)) = true) /\
  (errors_told (events_of (call env l r)) <= 1)%nat /\
  (aborted r = true -> errors_told (events_of (call env l r)) = O) /\
  (errors_told (events_of (call env l r)) = 1%nat ->
   aborted (state_of (call env l r)) = true).
Proof.
  unfold terminal.
  destruct r, l; cbn [completed aborted]; unfold_methods; case_split; cbn;
    repeat split; intros; try discriminate; try reflexivity; lia.
Qed.

Lemma terminal_kept (env : Env) (l : lifecycle) (r : Request) :
  terminal r = true -> terminal (state_of (call env l r)) = true.
Proof.
  unfold terminal. intros T.
  destruct (call_keeps_flags env l r) as [Hc Ha].
  apply orb_true_iff in T as [T|T]; [rewrite (Hc T) | rewrite (Ha T)];
    [reflexivity | apply orb_true_r].
Qed.

Lemma run_calls_events_cons (env : Env) (l : lifecycle) (ls : list lifecycle)
  (r : Request) :
  snd (run_calls env (l :: ls) r)
  = (events_of (call env l r) ++ snd (run_calls env ls (state_of (call env l r))))%list.
Proof.
  cbn [run_calls]. unfold state_of, events_of.
  destruct (call env l r) as [[r1 ev1] res]. cbn [fst snd].
  now destruct (run_calls env ls r1).
Qed.

(** X20: Over any sequence of calls, from any request, the handler's [onComplete]
    runs at most once and its [onError] at most once; [onComplete] never runs
    for a request that is completed or aborted, and [onError] never for one
    that is aborted. *)
Theorem handler_told_once (env : Env) (ls : list lifecycle) (r : Request) :
  (completions (snd (run_calls env ls r)) <= 1)%nat /\
  (errors_told (snd (run_calls env ls r)) <= 1)%nat /\
  (terminal r = true -> completions (snd (run_calls env ls r)) = O) /\
  (aborted r = true -> errors_told (snd (run_calls env ls r)) = O).
Proof.
  revert r; induction ls as [|l ls IH]; intros r.
  - cbn. repeat split; lia.
  - rewrite run_calls_events_cons, completions_app, errors_told_app.
    destruct (call_tells_once env l r) as (C1 & C0 & Cc & E1 & E0 & Ea).
    destruct (IH (state_of (call env l r))) as (I1 & I2 & I3 & I4).
    pose proof (terminal_kept env l r) as Tk.
    destruct (call_keeps_flags env l r) as [_ Ak].
    assert (Ct : completions (events_of (call env l r)) = 1%nat ->
                 completions (snd (run_calls env ls (state_of (call env l r)))) = O).
    { intros H. apply I3. unfold terminal. now rewrite (Cc H). }
    assert (Et : errors_told (events_of (call env l r)) = 1%nat ->
                 errors_told (snd (run_calls env ls (state_of (call env l r)))) = O).
    { intros H. apply I4. exact (Ea H). }
    split; [|split; [|split]].
    + destruct (completions (events_of (call env l r))) as [|[|n]]; lia.
    + destruct (errors_told (events_of (call env l r))) as [|[|n]]; lia.
    + intros T. rewrite (C0 T), (I3 (Tk T)). reflexivity.
    + intros A. rewrite (E0 A), (I4 (Ak A)). reflexivity.
Qed.

(** Two completions and two errors sent to one request. *)
Lemma handler_told_once_witness :
  completions (snd (run_calls sample_env
                      [LComplete []; LComplete []; LError (Foreign 1); LError (Foreign 2)]
                      (fresh_request quiet_handler))) = 1%nat /\
  errors_told (snd (run_calls sample_env [LError (Foreign 2)]
                      (state_of (onError sample_env (Foreign 1)
                                   (fresh_request quiet_handler))))) = O.
Proof.
  destruct (handler_told_once sample_env [LError (Foreign 2)]
              (state_of (onError sample_env (Foreign 1) (fresh_request quiet_handler))))
    as (_ & _ & _ & H).
  split; [reflexivity | exact (H eq_refl)].
Defined.
